(** * concore.py: the synchronized exchange protocol, embedded and verified

    A shallow embedding of [src/concore.py]: the Python values the module
    exchanges, their textual form ([str]/[repr]) and the literal reader
    ([ast.literal_eval]), the module globals as an explicit state record,
    the file system and the ZeroMQ sockets as part of that state, and the
    functions [parse_params], [unchanged], [read], [write] and [initval]
    as state-passing functions returning either a value or a raised
    exception.

    Scope of the value model.  Python values are [None], booleans, integers,
    strings, lists, tuples and dicts.  Floats, complex numbers, bytes, sets
    and numpy scalars are outside the model, so times and deltas are
    integers here; characters are code points below 256.  [literal_eval]
    reads the corresponding part of Python's literals and refuses every
    other text, also texts that Python reads (a float, a comment after the
    literal, a tuple without brackets): on such a text the embedded
    functions take the branch of a failed parse, which the source does not.
    The statements that say what a text parses to are therefore made for
    the text Python prints for a value of the model within Python's limits
    ([portable]), for names, and for texts given in full, where the parser
    here and Python's agree.  A file is known by the path string the code
    builds for it; two spellings of one path are two files here, so the
    statements speak of the file at the path built and of no other. *)

From Stdlib Require Import ZArith NArith List String Ascii Bool Lia.
From Stdlib Require Import Decimal DecimalString DecimalN DecimalFacts.
Import ListNotations.

Local Open Scope Z_scope.
Local Open Scope list_scope.
Local Open Scope string_scope.

(* ------------------------------------------------------------------ *)
(** ** Exceptions and results *)

(** The exception classes the source distinguishes in its [except]
    clauses.  [OSError] stands for any failure of [open]/[read]/[write]
    other than [FileNotFoundError]; [ZMQAgain] is [zmq.Again] (a timeout),
    [ZMQError] any other [zmq.error.ZMQError]. *)
Inductive exn : Type :=
| SyntaxError
| ValueError
| TypeError
| FileNotFoundError
| OSError
| ZMQAgain
| ZMQError.

Inductive result (A : Type) : Type :=
| Ok (a : A)
| Raise (e : exn).

Arguments Ok {A} a.
Arguments Raise {A} e.

Definition bind {A B : Type} (r : result A) (k : A -> result B) : result B :=
  match r with
  | Ok a => k a
  | Raise e => Raise e
  end.

Notation "' p <- r ;; k" := (bind r (fun p => k))
  (at level 61, p pattern, r at next level, right associativity).
Notation "x <- r ;; k" := (bind r (fun x => k))
  (at level 61, r at next level, right associativity).

(* ------------------------------------------------------------------ *)
(** ** Python values *)

#[local] Unset Elimination Schemes.
Inductive value : Type :=
| VNone
| VBool (b : bool)
| VInt (z : Z)
| VStr (t : string)
| VList (items : list value)
| VTuple (items : list value)
| VDict (entries : list (value * value)).
#[local] Set Elimination Schemes.

(** Induction over values that reaches inside the nested lists. *)
Section ValueInd.
Variable P : value -> Prop.
Hypothesis HNone : P VNone.
Hypothesis HBool : forall b, P (VBool b).
Hypothesis HInt : forall z, P (VInt z).
Hypothesis HStr : forall t, P (VStr t).
Hypothesis HList : forall l, Forall P l -> P (VList l).
Hypothesis HTuple : forall l, Forall P l -> P (VTuple l).
Hypothesis HDict :
  forall d, Forall (fun kv => P (fst kv) /\ P (snd kv)) d -> P (VDict d).

Fixpoint value_ind' (v : value) : P v :=
  match v with
  | VNone => HNone
  | VBool b => HBool b
  | VInt z => HInt z
  | VStr t => HStr t
  | VList l =>
      HList l ((fix go (l : list value) : Forall P l :=
                  match l with
                  | [] => Forall_nil P
                  | x :: r => Forall_cons x (value_ind' x) (go r)
                  end) l)
  | VTuple l =>
      HTuple l ((fix go (l : list value) : Forall P l :=
                   match l with
                   | [] => Forall_nil P
                   | x :: r => Forall_cons x (value_ind' x) (go r)
                   end) l)
  | VDict d =>
      HDict d ((fix go (d : list (value * value))
                  : Forall (fun kv => P (fst kv) /\ P (snd kv)) d :=
                  match d with
                  | [] => Forall_nil _
                  | (k, x) :: r =>
                      Forall_cons (k, x)
                        (conj (value_ind' k) (value_ind' x)) (go r)
                  end) d)
  end.
End ValueInd.

(** [isinstance(x, (int, float))] on the values of the model, which has no
    floats: the integers, and the booleans ([bool] is a subclass of
    [int]). *)
Definition to_num (v : value) : option Z :=
  match v with
  | VInt z => Some z
  | VBool b => Some (if b then 1 else 0)
  | _ => None
  end.


(** Python [==] between dict keys (hashable values): numbers compare by
    value ([True == 1]), strings and [None] structurally, tuples element by
    element; values of different kinds are never equal. *)
Fixpoint key_eqb (a b : value) : bool :=
  match a, b with
  | VNone, VNone => true
  | VStr x, VStr y => String.eqb x y
  | VTuple xs, VTuple ys =>
      (fix go (xs ys : list value) : bool :=
         match xs, ys with
         | [], [] => true
         | x :: xs', y :: ys' => key_eqb x y && go xs' ys'
         | _, _ => false
         end) xs ys
  | _, _ =>
      match to_num a, to_num b with
      | Some x, Some y => Z.eqb x y
      | _, _ => false
      end
  end.

(** [hash(x)] succeeds: lists and dicts are unhashable, a tuple is
    hashable when its items are. *)
Fixpoint hashable (v : value) : bool :=
  match v with
  | VNone | VBool _ | VInt _ | VStr _ => true
  | VTuple l => forallb hashable l
  | VList _ | VDict _ => false
  end.

(** [d[k] = x]: an equal key keeps its place and its first spelling, a new
    key goes last. *)
Fixpoint dict_set (d : list (value * value)) (k x : value)
  : list (value * value) :=
  match d with
  | [] => [(k, x)]
  | (k', x') :: r =>
      if key_eqb k' k then (k', x) :: r else (k', x') :: dict_set r k x
  end.

(* ------------------------------------------------------------------ *)
(** ** Characters and strings *)

Definition dquote : ascii := ascii_of_nat 34.
Definition squote : ascii := ascii_of_nat 39.
Definition backslash : ascii := ascii_of_nat 92.

Definition code (c : ascii) : nat := nat_of_ascii c.

Definition is_digit (c : ascii) : bool :=
  Nat.leb 48 (code c) && Nat.leb (code c) 57.

Definition is_alpha (c : ascii) : bool :=
  (Nat.leb 65 (code c) && Nat.leb (code c) 90)
  || (Nat.leb 97 (code c) && Nat.leb (code c) 122).

(** A character that can continue a name or a number: after one of these a
    keyword or a run of digits is a different token. *)
Definition is_ident_char (c : ascii) : bool :=
  is_digit c || is_alpha c || Ascii.eqb c "_" || Nat.leb 128 (code c)
  || Ascii.eqb c ".".

(** [str.isspace] on code points below 256. *)
Definition is_space (c : ascii) : bool :=
  (Nat.leb 9 (code c) && Nat.leb (code c) 13)
  || (Nat.leb 28 (code c) && Nat.leb (code c) 32)
  || Nat.eqb (code c) 133 || Nat.eqb (code c) 160.

Fixpoint lstrip (s : string) : string :=
  match s with
  | String c r => if is_space c then lstrip r else s
  | EmptyString => EmptyString
  end.

Fixpoint rev_string (s acc : string) : string :=
  match s with
  | String c r => rev_string r (String c acc)
  | EmptyString => acc
  end.

Definition rstrip (s : string) : string :=
  rev_string (lstrip (rev_string s EmptyString)) EmptyString.

(** [s.strip()] *)
Definition strip (s : string) : string := rstrip (lstrip s).

Fixpoint contains (c : ascii) (s : string) : bool :=
  match s with
  | String c' r => Ascii.eqb c' c || contains c r
  | EmptyString => false
  end.

Fixpoint strip_prefix (p s : string) : option string :=
  match p, s with
  | EmptyString, _ => Some s
  | String a p', String b s' =>
      if Ascii.eqb a b then strip_prefix p' s' else None
  | String _ _, EmptyString => None
  end.

Definition startswith (s : string) (c : ascii) : bool :=
  match s with
  | String c' _ => Ascii.eqb c' c
  | EmptyString => false
  end.

Definition endswith (s : string) (c : ascii) : bool :=
  startswith (rev_string s EmptyString) c.

(** [s.split(sep)] for a one-character separator: always at least one
    piece, empty pieces kept. *)
Fixpoint split (sep : ascii) (s : string) : list string :=
  match s with
  | EmptyString => [EmptyString]
  | String c r =>
      if Ascii.eqb c sep then EmptyString :: split sep r
      else match split sep r with
           | p :: ps => String c p :: ps
           | [] => [String c EmptyString]
           end
  end.

(** [s.split(sep, 1)] on a string known to contain [sep]: the text before
    the first separator and the text after it. *)
Fixpoint split_once (sep : ascii) (s : string) : string * string :=
  match s with
  | EmptyString => (EmptyString, EmptyString)
  | String c r =>
      if Ascii.eqb c sep then (EmptyString, r)
      else let (a, b) := split_once sep r in (String c a, b)
  end.

(* ------------------------------------------------------------------ *)
(** ** [str] and [repr] *)

(** Decimal digits of an integer, as [str(int)] prints them. *)
Definition str_of_N (n : N) : string := NilEmpty.string_of_uint (N.to_uint n).

Definition str_of_Z (z : Z) : string :=
  match z with
  | Z0 => "0"
  | Zpos p => str_of_N (Npos p)
  | Zneg p => String "-" (str_of_N (Npos p))
  end.

Definition hex_digit (n : nat) : ascii :=
  nth n (list_ascii_of_string "0123456789abcdef") "0"%char.

(** The characters [repr] writes as [\xHH]: control characters, DEL, and
    the code points 128..255 that are not printable (128..159,
    no-break space, soft hyphen). *)
Definition needs_hex (c : ascii) : bool :=
  Nat.ltb (code c) 32 || Nat.eqb (code c) 127
  || (Nat.leb 128 (code c) && Nat.leb (code c) 160)
  || Nat.eqb (code c) 173.

Definition one (c : ascii) : string := String c EmptyString.

Definition escape_char (q c : ascii) : string :=
  if Ascii.eqb c q || Ascii.eqb c backslash then String backslash (one c)
  else if Nat.eqb (code c) 9 then String backslash "t"
  else if Nat.eqb (code c) 10 then String backslash "n"
  else if Nat.eqb (code c) 13 then String backslash "r"
  else if needs_hex c then
    String backslash
      (String "x" (String (hex_digit (Nat.div (code c) 16))
                     (one (hex_digit (Nat.modulo (code c) 16)))))
  else one c.

Fixpoint escape_body (q : ascii) (t : string) : string :=
  match t with
  | EmptyString => EmptyString
  | String c r => escape_char q c ++ escape_body q r
  end.

(** [repr] of a string prefers single quotes and switches to double
    quotes when the text has a single quote and no double quote. *)
Definition quote_for (t : string) : ascii :=
  if contains squote t && negb (contains dquote t) then dquote else squote.

Definition repr_str (t : string) : string :=
  String (quote_for t) (escape_body (quote_for t) t ++ one (quote_for t)).

Fixpoint py_repr (v : value) : string :=
  match v with
  | VNone => "None"
  | VBool true => "True"
  | VBool false => "False"
  | VInt z => str_of_Z z
  | VStr t => repr_str t
  | VList l => "[" ++ concat ", " (map py_repr l) ++ "]"
  | VTuple l =>
      match l with
      | [x] => "(" ++ py_repr x ++ ",)"
      | _ => "(" ++ concat ", " (map py_repr l) ++ ")"
      end
  | VDict d =>
      "{" ++ concat ", "
               (map (fun '(k, x) => py_repr k ++ ": " ++ py_repr x) d)
          ++ "}"
  end.

(** [str(v)]: a string is itself, everything else prints as its [repr]. *)
Definition py_str (v : value) : string :=
  match v with
  | VStr t => t
  | _ => py_repr v
  end.

(** CPython bounds the conversion between integers and decimal text
    ([sys.int_info.default_max_str_digits], 4300): printing an integer of
    more digits raises [ValueError], also when the integer sits inside a
    container that is printed.  [str_ok v] holds when [str(v)] meets no
    such integer. *)
Definition int_max_str_digits : Z := 4300.

Definition int_str_limit : Z := 10 ^ int_max_str_digits.

Fixpoint str_ok (v : value) : bool :=
  match v with
  | VInt z => Z.ltb (Z.abs z) int_str_limit
  | VList l => forallb str_ok l
  | VTuple l => forallb str_ok l
  | VDict d => forallb (fun '(k, x) => str_ok k && str_ok x) d
  | _ => true
  end.

(** [str(v)] as a call that can raise. *)
Definition str (v : value) : result string :=
  match v with
  | VStr t => Ok t
  | _ => if str_ok v then Ok (py_str v) else Raise ValueError
  end.

Arguments int_str_limit : simpl never.
Arguments str_ok v : simpl never.
Arguments str v : simpl never.

(* ------------------------------------------------------------------ *)
(** ** [ast.literal_eval]

    Two passes, as in Python: the text is parsed whole, then the parsed
    literal is built into a value, left to right, and building a dict
    hashes its keys.  The parser reads [None], [True], [False], signed
    decimal integers, quoted strings with the escapes [repr] writes,
    lists, tuples and dicts, with blanks between tokens.  Python reads
    more (floats, complex numbers, bytes, sets, other bases and underscores
    in numbers, further escapes, adjacent string literals, line breaks
    inside brackets, comments); such texts are outside the model and are
    refused here.  Python also bounds what it reads (integers of more than
    4300 digits, brackets nested too deep), which the parser here does
    not.
    Python raises [SyntaxError] for a text that is no expression and
    [ValueError] for an expression that is no literal; every handler of
    the source catches the two together, and the parser here reports
    [SyntaxError] for both. *)

Definition option_bind {A B : Type} (o : option A) (k : A -> option B)
  : option B :=
  match o with
  | Some a => k a
  | None => None
  end.

(** Blanks between tokens. *)
Fixpoint skip_ws (s : string) : string :=
  match s with
  | String c r =>
      if Ascii.eqb c " " || Nat.eqb (code c) 9 then skip_ws r else s
  | EmptyString => EmptyString
  end.

Definition digit_of_char (c : ascii) : option (uint -> uint) :=
  match Nat.sub (code c) 48 with
  | 0%nat => if is_digit c then Some D0 else None
  | 1%nat => Some D1
  | 2%nat => Some D2
  | 3%nat => Some D3
  | 4%nat => Some D4
  | 5%nat => Some D5
  | 6%nat => Some D6
  | 7%nat => Some D7
  | 8%nat => Some D8
  | 9%nat => Some D9
  | _ => None
  end.

(** The longest run of decimal digits at the head of [s]. *)
Fixpoint scan_digits (s : string) : uint * string :=
  match s with
  | String c r =>
      match digit_of_char c with
      | Some d => let (u, r') := scan_digits r in (d u, r')
      | None => (Nil, s)
      end
  | EmptyString => (Nil, EmptyString)
  end.

Fixpoint all_zero (u : uint) : bool :=
  match u with
  | Nil => true
  | D0 u' => all_zero u'
  | _ => false
  end.

(** A decimal literal is a non-empty run of digits without a leading zero,
    unless every digit is zero. *)
Definition valid_decimal (u : uint) : bool :=
  match u with
  | Nil => false
  | D0 u' => all_zero u'
  | _ => true
  end.

(** An unsigned decimal integer, not glued to a following letter, digit,
    underscore or dot. *)
Definition parse_nat (s : string) : option (N * string) :=
  let (u, r) := scan_digits s in
  if valid_decimal u then
    match r with
    | String c _ => if is_ident_char c then None else Some (N.of_uint u, r)
    | EmptyString => Some (N.of_uint u, r)
    end
  else None.

Definition hex_value (c : ascii) : option nat :=
  if is_digit c then Some (Nat.sub (code c) 48)
  else if Nat.leb 97 (code c) && Nat.leb (code c) 102
       then Some (Nat.sub (code c) 87)
  else if Nat.leb 65 (code c) && Nat.leb (code c) 70
       then Some (Nat.sub (code c) 55)
  else None.

(** The body of a string literal after its opening quote [q], up to the
    closing quote; the escapes are the one-letter ones [repr] writes and
    [\xHH]. *)
Fixpoint parse_str_body (q : ascii) (s : string) : option (string * string) :=
  match s with
  | EmptyString => None
  | String c r =>
      if Ascii.eqb c q then Some (EmptyString, r)
      else if Ascii.eqb c backslash then
        match r with
        | EmptyString => None
        | String e r1 =>
            if Ascii.eqb e backslash || Ascii.eqb e squote
               || Ascii.eqb e dquote then
              option_bind (parse_str_body q r1)
                (fun '(t, rest) => Some (String e t, rest))
            else if Ascii.eqb e "t" then
              option_bind (parse_str_body q r1)
                (fun '(t, rest) => Some (String (ascii_of_nat 9) t, rest))
            else if Ascii.eqb e "n" then
              option_bind (parse_str_body q r1)
                (fun '(t, rest) => Some (String (ascii_of_nat 10) t, rest))
            else if Ascii.eqb e "r" then
              option_bind (parse_str_body q r1)
                (fun '(t, rest) => Some (String (ascii_of_nat 13) t, rest))
            else if Ascii.eqb e "x" then
              match r1 with
              | String h1 (String h2 r2) =>
                  match hex_value h1, hex_value h2 with
                  | Some a, Some b =>
                      option_bind (parse_str_body q r2)
                        (fun '(t, rest) =>
                           Some (String (ascii_of_nat (16 * a + b)) t, rest))
                  | _, _ => None
                  end
              | _ => None
              end
            else None
        end
      else if Nat.eqb (code c) 10 || Nat.eqb (code c) 13
              || Nat.eqb (code c) 0 then None
      else
        option_bind (parse_str_body q r)
          (fun '(t, rest) => Some (String c t, rest))
  end.

(** A keyword, not glued to a following name character. *)
Definition parse_keyword (kw : string) (v : value) (s : string)
  : option (value * string) :=
  match strip_prefix kw s with
  | Some r =>
      match r with
      | String c _ => if is_ident_char c then None else Some (v, r)
      | EmptyString => Some (v, r)
      end
  | None => None
  end.

Definition first_some {A : Type} (a b : option A) : option A :=
  match a with
  | Some _ => a
  | None => b
  end.

(** Literals without brackets: strings, signed integers, keywords. *)
Definition parse_atom (c : ascii) (r : string) : option (value * string) :=
  if Ascii.eqb c squote || Ascii.eqb c dquote then
    option_bind (parse_str_body c r) (fun '(t, rest) => Some (VStr t, rest))
  else if Ascii.eqb c "-" then
    option_bind (parse_nat (skip_ws r))
      (fun '(n, rest) => Some (VInt (- Z.of_N n), rest))
  else if Ascii.eqb c "+" then
    option_bind (parse_nat (skip_ws r))
      (fun '(n, rest) => Some (VInt (Z.of_N n), rest))
  else if is_digit c then
    option_bind (parse_nat (String c r))
      (fun '(n, rest) => Some (VInt (Z.of_N n), rest))
  else
    first_some (parse_keyword "None" VNone (String c r))
      (first_some (parse_keyword "True" (VBool true) (String c r))
         (parse_keyword "False" (VBool false) (String c r))).

(** [parse_value] reads one literal; [parse_items close] reads the items
    of a list or tuple up to [close] and tells whether a comma was seen
    ([(x)] is [x], [(x,)] is a tuple); [parse_entries] reads the
    [key: value] pairs of a dict up to the closing brace.  The fuel bounds
    the nesting and the number of items; the length of the text is
    enough. *)
Fixpoint parse_value (fuel : nat) (s : string) : option (value * string) :=
  match fuel with
  | O => None
  | S f =>
      match skip_ws s with
      | EmptyString => None
      | String c r =>
          if Ascii.eqb c "[" then
            option_bind (parse_items f "]" r)
              (fun '(l, _, rest) => Some (VList l, rest))
          else if Ascii.eqb c "(" then
            option_bind (parse_items f ")" r)
              (fun '(l, comma, rest) =>
                 match l, comma with
                 | [x], false => Some (x, rest)
                 | _, _ => Some (VTuple l, rest)
                 end)
          else if Ascii.eqb c "{" then
            option_bind (parse_entries f r)
              (fun '(d, rest) => Some (VDict d, rest))
          else parse_atom c r
      end
  end

with parse_items (fuel : nat) (close : ascii) (s : string)
  : option (list value * bool * string) :=
  match fuel with
  | O => None
  | S f =>
      match skip_ws s with
      | EmptyString => None
      | String c r =>
          if Ascii.eqb c close then Some ([], false, r)
          else
            option_bind (parse_value f (String c r))
              (fun '(x, r1) =>
                 match skip_ws r1 with
                 | EmptyString => None
                 | String c1 r2 =>
                     if Ascii.eqb c1 close then Some ([x], false, r2)
                     else if Ascii.eqb c1 "," then
                       option_bind (parse_items f close r2)
                         (fun '(l, _, rest) => Some (x :: l, true, rest))
                     else None
                 end)
      end
  end

with parse_entries (fuel : nat) (s : string)
  : option (list (value * value) * string) :=
  match fuel with
  | O => None
  | S f =>
      match skip_ws s with
      | EmptyString => None
      | String c r =>
          if Ascii.eqb c "}" then Some ([], r)
          else
            option_bind (parse_value f (String c r))
              (fun '(k, r1) =>
                 match skip_ws r1 with
                 | String c1 r2 =>
                     if Ascii.eqb c1 ":" then
                       option_bind (parse_value f r2)
                         (fun '(x, r3) =>
                            match skip_ws r3 with
                            | EmptyString => None
                            | String c3 r4 =>
                                if Ascii.eqb c3 "}" then Some ([(k, x)], r4)
                                else if Ascii.eqb c3 "," then
                                  option_bind (parse_entries f r4)
                                    (fun '(d, rest) =>
                                       Some ((k, x) :: d, rest))
                                else None
                            end)
                     else None
                 | EmptyString => None
                 end)
      end
  end.

(** What may follow the literal: blanks, then line ends and blank lines.
    A last line of blanks that no line end closes is an indented line with
    nothing on it, which the tokenizer refuses ([IndentationError], a
    [SyntaxError]); blanks on the line of the literal itself are fine.
    [first_line] holds until the first line end, [pending] while the
    current line has blanks and no line end yet. *)
Fixpoint tail_ok (first_line pending : bool) (s : string) : bool :=
  match s with
  | EmptyString => first_line || negb pending
  | String c r =>
      if Ascii.eqb c " " || Nat.eqb (code c) 9 then tail_ok first_line true r
      else if Nat.eqb (code c) 10 || Nat.eqb (code c) 13 then
        tail_ok false false r
      else false
  end.

Definition only_blank (s : string) : bool := tail_ok true false s.

(** Second pass: build the value.  [dict(zip(keys, values))] takes the
    pairs in order: the key is built, then the value, then the key is
    hashed ([TypeError] when it is unhashable) and the pair stored, a
    repeated key keeping its first place. *)
Fixpoint map_result {A B : Type} (f : A -> result B) (l : list A)
  : result (list B) :=
  match l with
  | [] => Ok []
  | x :: r => x' <- f x ;; r' <- map_result f r ;; Ok (x' :: r')
  end.

Fixpoint build_dict (f : value -> result value)
  (d acc : list (value * value)) : result (list (value * value)) :=
  match d with
  | [] => Ok acc
  | (k, x) :: r =>
      k' <- f k ;;
      x' <- f x ;;
      if hashable k' then build_dict f r (dict_set acc k' x')
      else Raise TypeError
  end.

Fixpoint build (v : value) : result value :=
  match v with
  | VList l => l' <- map_result build l ;; Ok (VList l')
  | VTuple l => l' <- map_result build l ;; Ok (VTuple l')
  | VDict d => d' <- build_dict build d [] ;; Ok (VDict d')
  | _ => Ok v
  end.

(** [literal_eval(text)]: leading blanks are stripped
    ([lstrip(" \t")]), the text must hold exactly one literal. *)
Definition literal_eval (text : string) : result value :=
  match parse_value (S (length text)) text with
  | Some (v, rest) => if only_blank rest then build v else Raise SyntaxError
  | None => Raise SyntaxError
  end.

Definition dq (t : string) : string := String dquote (t ++ one dquote).


(* ------------------------------------------------------------------ *)
(** ** NumPy type conversion helper *)

(** [convert_numpy_to_python]: the recursive walk over lists, tuples and
    the values (not the keys) of dicts.  No value of the model is a numpy
    scalar, so the first branch of the source never fires and the leaves
    are returned as they are: on the values of the model the function
    changes nothing, and no statement below says anything about what it
    does to a numpy scalar. *)
Fixpoint convert_numpy_to_python (obj : value) : value :=
  match obj with
  | VList l => VList (map convert_numpy_to_python l)
  | VTuple l => VTuple (map convert_numpy_to_python l)
  | VDict d => VDict (map (fun '(k, x) => (k, convert_numpy_to_python x)) d)
  | _ => obj
  end.

(* ------------------------------------------------------------------ *)
(** ** Parameter parsing *)

Fixpoint parse_params_loop (items : list string)
  (params : list (value * value)) : result (list (value * value)) :=
  match items with
  | [] => Ok params
  | item :: r =>
      if contains "=" item then
        let (key, val) := split_once "=" item in
        let key := strip key in
        let val := strip val in
        match literal_eval val with
        | Ok v => parse_params_loop r (dict_set params (VStr key) v)
        | Raise SyntaxError | Raise ValueError =>
            parse_params_loop r (dict_set params (VStr key) (VStr val))
        | Raise e => Raise e
        end
      else parse_params_loop r params
  end.

(** The attempt at a full dict literal: [Some r] when the function returns
    (or raises) there, [None] when it goes on to the [;]-separated form. *)
Definition parse_params_dict (s0 : string)
  : option (result (list (value * value))) :=
  if startswith s0 "{" && endswith s0 "}" then
    match literal_eval s0 with
    | Ok (VDict d) => Some (Ok d)
    | Ok _ => None
    | Raise SyntaxError | Raise ValueError => None
    | Raise e => Some (Raise e)
    end
  else None.

Definition parse_params (sparams : string)
  : result (list (value * value)) :=
  match sparams with
  | EmptyString => Ok []
  | _ =>
      let s0 := strip sparams in
      match parse_params_dict s0 with
      | Some r => r
      | None => parse_params_loop (split ";" s0) []
      end
  end.

(* ------------------------------------------------------------------ *)
(** ** The world around the module: files, sockets, log *)

(** What [open(path, "r").read()] finds at a path. [Unreadable] is any
    failure other than a missing file (a directory, no permission).  The
    file system maps path strings, as the code builds them, to what is
    found there; that two different strings can name one file is not
    modelled. *)
Inductive fstat : Type :=
| Missing
| Unreadable
| Content (text : string).

Definition filesystem : Type := string -> fstat.

(** Python reads a file as text: every line end of the file, [\r\n] or a
    lone [\r], comes back as [\n].  [Content] holds the text as it is
    read, so what is written is stored with its line ends translated. *)
Definition cr : ascii := ascii_of_nat 13.
Definition lf : ascii := ascii_of_nat 10.

Fixpoint universal_newlines (t : string) : string :=
  match t with
  | EmptyString => EmptyString
  | String c r =>
      if Ascii.eqb c cr then
        match r with
        | String c' r' =>
            if Ascii.eqb c' lf then String lf (universal_newlines r')
            else String lf (universal_newlines r)
        | EmptyString => String lf EmptyString
        end
      else String c (universal_newlines r)
  end.

Definition fs_put (path : string) (x : fstat) (f : filesystem) : filesystem :=
  fun p => if String.eqb p path then x else f p.

(** What one [send_json] or [recv_json] on a socket does: it succeeds or
    raises ([ZMQAgain] on a timeout). *)
Inductive send_outcome : Type :=
| SendOk
| SendRaise (e : exn).

Inductive recv_outcome : Type :=
| RecvOk (m : value)
| RecvRaise (e : exn).

(** A [ZeroMQPort]: the behaviour of its socket, call by call, the number
    of calls made so far and the messages that went out. *)
Record zmq_port : Type := mkPort {
  send_script : nat -> send_outcome;
  recv_script : nat -> recv_outcome;
  calls : nat;
  sent : list value
}.

Inductive level : Type := ERROR | WARNING.

(** The [logging] calls of the source, one constructor per call site. *)
Inductive message : Type :=
| SendTimeout (attempt : nat)
| SendFailed
| ReceiveTimeout (attempt : nat)
| ReceiveFailed
| ZmqReadError (port : string)
| ZmqReadUnexpected (port : string)
| InvalidPortIdentifier (port_identifier : value)
| ReadError (path : string)
| RetryError (attempt : nat) (path : string)
| MaxRetries (path : string)
| UnexpectedFormat (path ins : string)
| ParseFailure (path ins : string)
| ZmqWriteError (port : string)
| ZmqWriteUnexpected (port : string)
| UnsupportedWriteType (path : string)
| WriteError (path : string)
| InitvalNotNumber (text : string)
| InitvalNotList (text : string)
| InitvalParseFailure (text : string).

(** What the process does that takes time or touches a file. *)
Inductive event : Type :=
| EvSleep (seconds : N)
| EvSleepHalf
| EvOpenRead (path : string)
| EvOpenWrite (path : string).

(** The module globals ([simtime], [s], [olds], [retrycount], [delay],
    [zmq_ports]) and the world: the files, the paths that cannot be opened
    for writing, what the peer processes do to the files while this one
    sleeps ([peers k] during the [k]-th sleep), the log and the trace. *)
Record state : Type := mkState {
  simtime : Z;
  s : string;
  olds : string;
  retrycount : Z;
  delay : N;
  zmq_ports : string -> option zmq_port;
  fs : filesystem;
  readonly : string -> bool;
  peers : nat -> filesystem -> filesystem;
  ticks : nat;
  log : list (level * message);
  trace : list event
}.


Definition set_simtime (x : Z) (st : state) : state :=
  mkState x (s st) (olds st) (retrycount st) (delay st) (zmq_ports st) (fs st)
    (readonly st) (peers st) (ticks st) (log st) (trace st).

Definition set_s (x : string) (st : state) : state :=
  mkState (simtime st) x (olds st) (retrycount st) (delay st) (zmq_ports st)
    (fs st) (readonly st) (peers st) (ticks st) (log st) (trace st).

Definition set_olds (x : string) (st : state) : state :=
  mkState (simtime st) (s st) x (retrycount st) (delay st) (zmq_ports st)
    (fs st) (readonly st) (peers st) (ticks st) (log st) (trace st).

Definition set_retrycount (x : Z) (st : state) : state :=
  mkState (simtime st) (s st) (olds st) x (delay st) (zmq_ports st) (fs st)
    (readonly st) (peers st) (ticks st) (log st) (trace st).

Definition set_zmq_ports (x : string -> option zmq_port) (st : state) : state :=
  mkState (simtime st) (s st) (olds st) (retrycount st) (delay st) x (fs st)
    (readonly st) (peers st) (ticks st) (log st) (trace st).

Definition set_fs (x : filesystem) (st : state) : state :=
  mkState (simtime st) (s st) (olds st) (retrycount st) (delay st)
    (zmq_ports st) x (readonly st) (peers st) (ticks st) (log st) (trace st).

Definition set_ticks (x : nat) (st : state) : state :=
  mkState (simtime st) (s st) (olds st) (retrycount st) (delay st)
    (zmq_ports st) (fs st) (readonly st) (peers st) x (log st) (trace st).

Definition set_log (x : list (level * message)) (st : state) : state :=
  mkState (simtime st) (s st) (olds st) (retrycount st) (delay st)
    (zmq_ports st) (fs st) (readonly st) (peers st) (ticks st) x (trace st).

Definition set_trace (x : list event) (st : state) : state :=
  mkState (simtime st) (s st) (olds st) (retrycount st) (delay st)
    (zmq_ports st) (fs st) (readonly st) (peers st) (ticks st) (log st) x.


Definition inpath : string := "./in".
Definition outpath : string := "./out".
Definition max_retries : nat := 5.

Definition logging (l : level) (m : message) (st : state) : state :=
  set_log (log st ++ [(l, m)])%list st.

Definition record (e : event) (st : state) : state :=
  set_trace (trace st ++ [e])%list st.

(** [time.sleep]: time passes and the peers act on the files. *)
Definition sleep (e : event) (st : state) : state :=
  record e (set_ticks (S (ticks st)) (set_fs (peers st (ticks st) (fs st)) st)).

(** [with open(path, "r") as f: f.read()] *)
Definition open_read (path : string) (st : state) : state * result string :=
  let st1 := record (EvOpenRead path) st in
  match fs st path with
  | Missing => (st1, Raise FileNotFoundError)
  | Unreadable => (st1, Raise OSError)
  | Content text => (st1, Ok text)
  end.

(** [os.path.join] (POSIX). *)
Definition path_join (a b : string) : string :=
  if startswith b "/" then b
  else match a with
       | EmptyString => b
       | _ => if endswith a "/" then a ++ b else a ++ "/" ++ b
       end.

(** [int(x)]: integers and booleans as they are, a string by its signed
    decimal digits (single underscores between digits allowed);
    [TypeError] for anything else.  Around the digits [int] skips the
    blanks of C's [isspace] (tab to carriage return, and the space) and
    the two Latin-1 spaces beyond ASCII (U+0085, U+00A0); the separators
    U+001C to U+001F, which [str.strip] removes, are not skipped.  A text
    of more than 4300 digits is refused ([ValueError]). *)
Definition int_space (c : ascii) : bool :=
  (Nat.leb 9 (code c) && Nat.leb (code c) 13)
  || Nat.eqb (code c) 32 || Nat.eqb (code c) 133 || Nat.eqb (code c) 160.

Fixpoint int_lstrip (t : string) : string :=
  match t with
  | String c r => if int_space c then int_lstrip r else t
  | EmptyString => EmptyString
  end.

Definition int_strip (t : string) : string :=
  rev_string (int_lstrip (rev_string (int_lstrip t) EmptyString)) EmptyString.

Fixpoint count_digits (t : string) : N :=
  match t with
  | String c r => ((if is_digit c then 1 else 0) + count_digits r)%N
  | EmptyString => 0%N
  end.

Fixpoint int_digits (t : string) (acc : N) (after_digit : bool) : option N :=
  match t with
  | EmptyString => if after_digit then Some acc else None
  | String c r =>
      if is_digit c then
        int_digits r (10 * acc + N.of_nat (Nat.sub (code c) 48))%N true
      else if Ascii.eqb c "_" && after_digit then
        match r with
        | EmptyString => None
        | _ => int_digits r acc false
        end
      else None
  end.

Definition int_of_text (t : string) : option Z :=
  match t with
  | String c r =>
      if Ascii.eqb c "-" then
        option_map (fun n => - Z.of_N n) (int_digits r 0%N false)
      else if Ascii.eqb c "+" then
        option_map Z.of_N (int_digits r 0%N false)
      else option_map Z.of_N (int_digits t 0%N false)
  | EmptyString => None
  end.

Definition py_int (x : value) : result Z :=
  match x with
  | VInt z => Ok z
  | VBool b => Ok (if b then 1 else 0)
  | VStr t =>
      match int_of_text (int_strip t) with
      | Some z =>
          if Z.ltb int_max_str_digits (Z.of_N (count_digits t))
          then Raise ValueError else Ok z
      | None => Raise ValueError
      end
  | _ => Raise TypeError
  end.

(** [isinstance(port_identifier, str) and port_identifier in zmq_ports],
    with the port found there. *)
Definition registered (port_identifier : value) (st : state)
  : option (string * zmq_port) :=
  match port_identifier with
  | VStr name =>
      match zmq_ports st name with
      | Some p => Some (name, p)
      | None => None
      end
  | _ => None
  end.

(** The port object is shared: what a call does to it is seen through the
    registry. *)
Definition set_port (name : string) (p : zmq_port) (st : state) : state :=
  set_zmq_ports
    (fun q => if String.eqb q name then Some p else zmq_ports st q) st.

(* ------------------------------------------------------------------ *)
(** ** ZeroMQ communication wrapper *)

Definition called (p : zmq_port) : zmq_port :=
  mkPort (send_script p) (recv_script p) (S (calls p)) (sent p).

(** [ZeroMQPort.send_json_with_retry]: [n] attempts left, [attempt] made.
    Only [zmq.Again] is caught; another exception leaves the loop. *)
Fixpoint send_loop (n attempt : nat) (p : zmq_port) (msg : value)
  (st : state) : state * zmq_port * result value :=
  match n with
  | O => (logging ERROR SendFailed st, p, Ok VNone)
  | S n' =>
      match send_script p (calls p) with
      | SendOk =>
          (st,
           mkPort (send_script p) (recv_script p) (S (calls p))
             (sent p ++ [msg])%list,
           Ok VNone)
      | SendRaise ZMQAgain =>
          send_loop n' (S attempt) (called p) msg
            (sleep EvSleepHalf (logging WARNING (SendTimeout (S attempt)) st))
      | SendRaise e => (st, called p, Raise e)
      end
  end.

Definition send_json_with_retry (p : zmq_port) (msg : value) (st : state)
  : state * zmq_port * result value :=
  send_loop 5 0 p msg st.

(** [ZeroMQPort.recv_json_with_retry] *)
Fixpoint recv_loop (n attempt : nat) (p : zmq_port) (st : state)
  : state * zmq_port * result value :=
  match n with
  | O => (logging ERROR ReceiveFailed st, p, Ok VNone)
  | S n' =>
      match recv_script p (calls p) with
      | RecvOk m => (st, called p, Ok m)
      | RecvRaise ZMQAgain =>
          recv_loop n' (S attempt) (called p)
            (sleep EvSleepHalf
               (logging WARNING (ReceiveTimeout (S attempt)) st))
      | RecvRaise e => (st, called p, Raise e)
      end
  end.

Definition recv_json_with_retry (p : zmq_port) (st : state)
  : state * zmq_port * result value :=
  recv_loop 5 0 p st.

(* ------------------------------------------------------------------ *)
(** ** Simulation time handling *)

(** [unchanged()] *)
Definition unchanged (st : state) : state * bool :=
  if String.eqb (olds st) (s st) then (set_s EmptyString st, true)
  else (set_olds (s st) st, false).

(* ------------------------------------------------------------------ *)
(** ** I/O handling (file + ZMQ) *)

(** The default return of [read]: a string default is read as a literal
    when it is one.  The handler names [SyntaxError] and [ValueError]
    only. *)
Definition default_return_val (initstr_val : value) : result value :=
  match initstr_val with
  | VStr t =>
      match literal_eval t with
      | Ok v => Ok v
      | Raise SyntaxError | Raise ValueError => Ok initstr_val
      | Raise e => Raise e
      end
  | _ => Ok initstr_val
  end.

(** The retry loop of [read]: [while len(ins) == 0 and attempts <
    max_retries], with [remaining = max_retries - attempts]. *)
Fixpoint read_retry (remaining : nat) (file_path ins : string) (st : state)
  : state * string :=
  match remaining with
  | O => (st, ins)
  | S k =>
      match ins with
      | EmptyString =>
          let st1 := sleep (EvSleep (delay st)) st in
          let (st2, r) := open_read file_path st1 in
          let (st3, ins') :=
            match r with
            | Ok text => (st2, text)
            | Raise _ =>
                (logging WARNING
                   (RetryError (max_retries - k) file_path) st2, ins)
            end in
          read_retry k file_path ins'
            (set_retrycount (retrycount st3 + 1) st3)
      | _ => (st, ins)
      end
  end.

(** The text [read] goes on to parse, from the first [open] to the end of
    the retry loop; [Ok None] when [read] returns the default instead (the
    file cannot be read, or it is still empty after the retries).  A
    missing file is read as the text of the default, which also goes into
    [s]; [str(initstr_val)] is called inside the handler of
    [FileNotFoundError], so what it raises leaves [read]. *)
Definition read_text (file_path : string) (initstr_val : value) (st : state)
  : state * result (option string) :=
  let (st1, r) := open_read file_path st in
  let first_attempt :=
    match r with
    | Ok ins => Ok (Some (st1, ins))
    | Raise FileNotFoundError =>
        match str initstr_val with
        | Ok ins => Ok (Some (set_s (s st1 ++ ins) st1, ins))
        | Raise e => Raise e
        end
    | Raise _ => Ok None
    end in
  match first_attempt with
  | Raise e => (st1, Raise e)
  | Ok None => (logging ERROR (ReadError file_path) st1, Ok None)
  | Ok (Some (st2, ins)) =>
      let (st3, ins) := read_retry max_retries file_path ins st2 in
      match ins with
      | EmptyString => (logging ERROR (MaxRetries file_path) st3, Ok None)
      | _ => (st3, Ok (Some ins))
      end
  end.

(** The end of [read]: [s += ins], then the parse. *)
Definition read_parse (file_path ins : string) (dflt : value) (st : state)
  : state * result value :=
  let st1 := set_s (s st ++ ins) st in
  match literal_eval ins with
  | Ok (VList (current_simtime_from_file :: rest)) =>
      match to_num current_simtime_from_file with
      | Some t => (set_simtime (Z.max (simtime st1) t) st1, Ok (VList rest))
      | None => (st1, Ok (VList rest))
      end
  | Ok inval =>
      (logging WARNING (UnexpectedFormat file_path ins) st1, Ok inval)
  | Raise _ => (logging ERROR (ParseFailure file_path ins) st1, Ok dflt)
  end.

(** Case 2 of [read], after the port number is known.  The path is
    built outside every [try]: [str(file_port_num)] raising leaves
    [read]. *)
Definition read_file (file_port_num : Z) (name : string)
  (initstr_val dflt : value) (st : state) : state * result value :=
  let st1 := sleep (EvSleep (delay st)) st in
  match str (VInt file_port_num) with
  | Raise e => (st1, Raise e)
  | Ok port_text =>
      let file_path := path_join (inpath ++ port_text) name in
      let (st2, text) := read_text file_path initstr_val st1 in
      match text with
      | Ok (Some ins) => read_parse file_path ins dflt st2
      | Ok None => (st2, Ok dflt)
      | Raise e => (st2, Raise e)
      end
  end.

(** [read(port_identifier, name, initstr_val)] *)
Definition read (port_identifier : value) (name : string)
  (initstr_val : value) (st : state) : state * result value :=
  match default_return_val initstr_val with
  | Raise e => (st, Raise e)
  | Ok dflt =>
      match registered port_identifier st with
      | Some (pname, zmq_p) =>
          let '(st1, p1, r) := recv_json_with_retry zmq_p st in
          let st2 := set_port pname p1 st1 in
          match r with
          | Ok msg => (st2, Ok msg)
          | Raise ZMQError => (logging ERROR (ZmqReadError pname) st2, Ok dflt)
          | Raise _ => (logging ERROR (ZmqReadUnexpected pname) st2, Ok dflt)
          end
      | None =>
          match py_int port_identifier with
          | Ok file_port_num =>
              read_file file_port_num name initstr_val dflt st
          | Raise ValueError =>
              (logging ERROR (InvalidPortIdentifier port_identifier) st,
               Ok dflt)
          | Raise e => (st, Raise e)
          end
      end
  end.

(** The body of [with open(file_path, "w") as outfile] and its handler.
    Opening truncates the file; an exception raised before
    [outfile.write] ([simtime + delta], [str(data_to_write)]) leaves it
    empty and [simtime] as it was. *)
Definition write_file (file_path : string) (val delta : value) (st : state)
  : state :=
  let st1 := record (EvOpenWrite file_path) st in
  if readonly st file_path then logging ERROR (WriteError file_path) st1
  else
    match val with
    | VList _ =>
        match convert_numpy_to_python val, to_num delta with
        | VList val_converted, Some d =>
            let data_to_write := VList (VInt (simtime st + d) :: val_converted) in
            match str data_to_write with
            | Ok text =>
                set_simtime (simtime st + d)
                  (set_fs
                     (fs_put file_path (Content (universal_newlines text))
                        (fs st1)) st1)
            | Raise _ =>
                logging ERROR (WriteError file_path)
                  (set_fs (fs_put file_path (Content EmptyString) (fs st1))
                     st1)
            end
        | _, _ =>
            logging ERROR (WriteError file_path)
              (set_fs (fs_put file_path (Content EmptyString) (fs st1)) st1)
        end
    | _ =>
        set_fs
          (fs_put file_path (Content (universal_newlines (py_str val)))
             (fs st1)) st1
    end.

(** [write(port_identifier, name, val, delta)].  Case 1 does not return:
    after the send the function goes on to case 2.  The handler of
    [ValueError] covers [int(port_identifier)] and [str(file_port_num)];
    its message prints [port_identifier], so when it was
    [str(file_port_num)] that raised (an integer too long to print) the
    handler raises the same error again. *)
Definition write (port_identifier : value) (name : string)
  (val delta : value) (st : state) : state * result value :=
  let st1 :=
    match registered port_identifier st with
    | Some (pname, zmq_p) =>
        let '(st', p', r) := send_json_with_retry zmq_p val st in
        let st'' := set_port pname p' st' in
        match r with
        | Ok _ => st''
        | Raise ZMQError => logging ERROR (ZmqWriteError pname) st''
        | Raise _ => logging ERROR (ZmqWriteUnexpected pname) st''
        end
    | None => st
    end in
  match py_int port_identifier with
  | Raise ValueError =>
      (logging ERROR (InvalidPortIdentifier port_identifier) st1, Ok VNone)
  | Raise e => (st1, Raise e)
  | Ok file_port_num =>
      match str (VInt file_port_num) with
      | Raise _ =>
          match str port_identifier with
          | Raise e => (st1, Raise e)
          | Ok _ =>
              (logging ERROR (InvalidPortIdentifier port_identifier) st1,
               Ok VNone)
          end
      | Ok port_text =>
          let file_path := path_join (outpath ++ port_text) name in
          match val with
          | VStr _ =>
              (write_file file_path val delta
                 (sleep (EvSleep (2 * delay st1)) st1), Ok VNone)
          | VList _ => (write_file file_path val delta st1, Ok VNone)
          | _ =>
              (logging ERROR (UnsupportedWriteType file_path) st1, Ok VNone)
          end
      end
  end.


(* ------------------------------------------------------------------ *)
(** ** Module start-up: parameter file, maximum time, parameter lookup *)







(** The globals set once when the module is loaded ([params], [maxtime]),
    beside the ones [read] and [write] work on. *)
Record session : Type := mkSession {
  core : state;
  params : list (value * value);
  maxtime : value
}.




(* ------------------------------------------------------------------ *)
(** ** Notions used by the statements about the text layer *)

(** What may follow a number or a keyword. *)
Definition free (rest : string) : bool :=
  match rest with
  | EmptyString => true
  | String c _ => negb (is_ident_char c)
  end.

(** A character a literal can start with, as [repr] writes it: no blank
    and no closing bracket. *)
Definition starter (c : ascii) : bool :=
  negb (Ascii.eqb c " " || Nat.eqb (code c) 9)
  && negb (Ascii.eqb c "]" || Ascii.eqb c ")" || Ascii.eqb c "}").

(** Fuel that [parse_value] needs for the text of a value: its nesting
    plus the length of its longest run of items. *)
Fixpoint chain (ms : list nat) : nat :=
  match ms with
  | [] => 1
  | a :: r => S (Nat.max a (chain r))
  end.

Fixpoint fuel_of (v : value) : nat :=
  match v with
  | VList l => S (chain (map fuel_of l))
  | VTuple l => S (chain (map fuel_of l))
  | VDict d =>
      S (chain (map (fun '(k, x) => Nat.max (fuel_of k) (fuel_of x)) d))
  | _ => 1
  end.

(** Keys an insertion never merges: each differs from all later ones. *)
Fixpoint keys_distinct (ks : list value) : bool :=
  match ks with
  | [] => true
  | k :: r => forallb (fun k' => negb (key_eqb k k')) r && keys_distinct r
  end.

(** The values Python can hold: the keys of every dict are hashable and
    pairwise different. *)
Fixpoint proper (v : value) : bool :=
  match v with
  | VList l => forallb proper l
  | VTuple l => forallb proper l
  | VDict d =>
      forallb (fun '(k, x) => proper k && hashable k && proper x) d
      && keys_distinct (map fst d)
  | _ => true
  end.

(** The values [write] accepts on a file port: text or a list. *)
Definition text_or_list (v : value) : bool :=
  match v with
  | VStr _ | VList _ => true
  | _ => false
  end.

(** The file [read] polls and the file [write] writes for a port number. *)
Definition in_file (n : Z) (name : string) : string :=
  path_join (inpath ++ str_of_Z n) name.

Definition out_file (n : Z) (name : string) : string :=
  path_join (outpath ++ str_of_Z n) name.

(** [k] retries in the trace: a pause, then an attempt to open. *)
Fixpoint retries (k : nat) (pause : N) (file_path : string) : list event :=
  match k with
  | O => []
  | S k' => EvSleep pause :: EvOpenRead file_path :: retries k' pause file_path
  end.

(** The peers never touch a file that is empty. *)
Definition stays_empty (st : state) (file_path : string) : Prop :=
  forall k f, f file_path = Content EmptyString ->
              peers st k f file_path = Content EmptyString.

(* ------------------------------------------------------------------ *)
(** ** States used in the examples *)

(** A fresh process: the globals as the module initialises them, no file
    anywhere, no socket, peers that do nothing. *)
Definition fresh : state :=
  mkState 0 EmptyString EmptyString 0 1 (fun _ => None) (fun _ => Missing)
    (fun _ => false) (fun _ f => f) 0 [] [].

(** A socket whose every call succeeds. *)
Definition good_port : zmq_port :=
  mkPort (fun _ => SendOk) (fun _ => RecvOk VNone) 0 [].

(** A fresh process with one socket registered under [name]. *)
Definition with_socket (name : string) : state :=
  set_port name good_port fresh.

(** A fresh process whose file [path] holds [text]. *)
Definition with_file (path text : string) : state :=
  set_fs (fs_put path (Content text) (fs fresh)) fresh.

(** A fresh process whose file [path] exists and is empty. *)
Definition with_empty_file (path : string) : state :=
  with_file path EmptyString.

(* ------------------------------------------------------------------ *)
(** ** The parameter grammar, in the words of the specification *)

(** One [;]-separated segment: with an [=] it is split once on the first
    [=], both sides are trimmed, and the value is the literal it holds, or
    the raw trimmed text when it holds none; without [=] it is skipped. *)
Definition segment_entry (item : string) : option (value * value) :=
  if contains "=" item then
    let (key, val) := split_once "=" item in
    Some (VStr (strip key),
          match literal_eval (strip val) with
          | Ok v => v
          | Raise _ => VStr (strip val)
          end)
  else None.

Definition grammar_step (params : list (value * value)) (item : string)
  : list (value * value) :=
  match segment_entry item with
  | Some (k, v) => dict_set params k v
  | None => params
  end.

Definition grammar_params (text : string) : list (value * value) :=
  fold_left grammar_step (split ";" (strip text)) [].

(* ------------------------------------------------------------------ *)
(** ** Notions used by the further statements *)

(** The socket times out on its next [n] calls. *)
Definition send_times_out (p : zmq_port) (n : nat) : Prop :=
  forall i, (i < n)%nat -> send_script p (calls p + i) = SendRaise ZMQAgain.


(** The warnings of attempts [a+1 .. a+n]. *)
Fixpoint timeouts (mk : nat -> message) (a n : nat) : list (level * message) :=
  match n with
  | O => []
  | S n' => (WARNING, mk (S a)) :: timeouts mk (S a) n'
  end.

(** The peers do nothing. *)
Definition quiet (st : state) : Prop := forall k f, peers st k f = f.

(** Seen from the [k]-th pause on, the file is empty at [j] polls in a
    row and holds [text] at the next one. *)
Fixpoint arrives (j : nat) (text file_path : string)
  (world : nat -> filesystem -> filesystem) (k : nat) (f : filesystem)
  : Prop :=
  match j with
  | O => world k f file_path = Content text
  | S j' =>
      world k f file_path = Content EmptyString
      /\ arrives j' text file_path world (S k) (world k f)
  end.

(** The state after [k] calls of [unchanged] in a row. *)
Fixpoint unchanged_calls (k : nat) (st : state) : state :=
  match k with
  | O => st
  | S k' => unchanged_calls k' (fst (unchanged st))
  end.

(** A parameter name that the grammar leaves alone: no blank, no [=], no
    [;], no opening brace. *)
Fixpoint plain (key : string) : bool :=
  match key with
  | EmptyString => true
  | String c r =>
      negb (is_space c) && negb (Ascii.eqb c "=") && negb (Ascii.eqb c ";")
      && negb (Ascii.eqb c "{") && plain r
  end.


Definition fresh_session : session := mkSession fresh [] VNone.

(** A list with a first element, the shape [read] takes for an envelope. *)
Definition is_envelope (v : value) : bool :=
  match v with
  | VList (_ :: _) => true
  | _ => false
  end.

(** A process whose input file [path] is empty at first and is given the
    text [text] by a peer during the second pause. *)
Definition with_slow_writer (path text : string) : state :=
  mkState 0 EmptyString EmptyString 0 1 (fun _ => None)
    (fs_put path (Content EmptyString) (fun _ => Missing))
    (fun _ => false)
    (fun k f => if Nat.eqb k 1 then fs_put path (Content text) f else f)
    0 [] [].





(** Lists written one after the other through one port, each with its
    name and its integer [delta]. *)
Fixpoint write_all (port_identifier : value)
  (items : list (string * list value * Z)) (st : state) : state :=
  match items with
  | [] => st
  | (name, v, d) :: r =>
      write_all port_identifier r
        (fst (write port_identifier name (VList v) (VInt d) st))
  end.

Fixpoint total (items : list (string * list value * Z)) : Z :=
  match items with
  | [] => 0
  | (_, _, d) :: r => d + total r
  end.

(* ------------------------------------------------------------------ *)
(** ** The texts on which the statements stand

    [literal_eval] above reads a part of Python's literals.  The
    statements about what a text parses to are stated for the text Python
    prints for a value, within the limits Python puts on such a text. *)

(** How deep the brackets of the printed value nest. *)
Fixpoint nesting (v : value) : nat :=
  match v with
  | VList l => S (fold_right (fun x m => Nat.max (nesting x) m) O l)
  | VTuple l => S (fold_right (fun x m => Nat.max (nesting x) m) O l)
  | VDict d =>
      S (fold_right
           (fun '(k, x) m => Nat.max (Nat.max (nesting k) (nesting x)) m) O d)
  | _ => O
  end.

(** A bound on the nesting that every parser and printer of CPython
    takes. *)
Definition max_nesting : nat := 20.

(** The values that are printed and read back as they are: proper, every
    integer short enough to be converted, the brackets nested no deeper
    than [max_nesting]. *)
Definition portable (v : value) : bool :=
  proper v && str_ok v && Nat.leb (nesting v) max_nesting.

Definition is_text (v : value) : bool :=
  match v with
  | VStr _ => true
  | _ => false
  end.

(** A name: letters, digits and underscores, no digit first, and not one
    of the three keywords that are literals.  As an expression a name is
    no literal. *)
Definition name_char (c : ascii) : bool :=
  is_alpha c || is_digit c || Ascii.eqb c "_".

Fixpoint all_name_chars (t : string) : bool :=
  match t with
  | EmptyString => true
  | String c r => name_char c && all_name_chars r
  end.

Definition is_name (t : string) : bool :=
  match t with
  | EmptyString => false
  | String c r =>
      negb (is_digit c) && all_name_chars t
      && negb (String.eqb t "None") && negb (String.eqb t "True")
      && negb (String.eqb t "False")
  end.

(** The default of a [read] whose caller passes [initstr_val]: an object
    that is not text is its own default; the printed text of a portable
    value stands for that value; a name or the empty text stays the text
    it is. *)
Definition default_of (initstr_val dflt : value) : Prop :=
  (is_text initstr_val = false /\ dflt = initstr_val)
  \/ (portable dflt = true /\ initstr_val = VStr (py_repr dflt))
  \/ (exists t, (t = EmptyString \/ is_name t = true)
                /\ initstr_val = VStr t /\ dflt = VStr t).

(** The envelopes of the lists written one after the other from time
    [now] on are all portable. *)
Fixpoint envelopes_portable (now : Z) (items : list (string * list value * Z))
  : bool :=
  match items with
  | [] => true
  | (_, v, d) :: r =>
      portable (VList (VInt (now + d) :: v)) && envelopes_portable (now + d) r
  end.

(* ================================================================== *)
(** * Properties *)

(* ------------------------------------------------------------------ *)
(** ** Strings *)

Ltac ascii_cases c := destruct c as [[] [] [] [] [] [] [] []].

Lemma append_assoc (a b c : string) : (a ++ b) ++ c = a ++ (b ++ c).
Proof.
  induction a as [|x a IH]; simpl; [reflexivity | now rewrite IH].
Qed.

Lemma append_nil_r (a : string) : a ++ EmptyString = a.
Proof.
  induction a as [|x a IH]; simpl; [reflexivity | now rewrite IH].
Qed.

Lemma length_append (a b : string) :
  String.length (a ++ b) = (String.length a + String.length b)%nat.
Proof.
  induction a as [|x a IH]; simpl; [reflexivity | now rewrite IH].
Qed.

Lemma is_digit_starter c : is_digit c = true -> starter c = true.
Proof. ascii_cases c; intros H; try discriminate H; reflexivity. Qed.

Lemma digit_of_char_none c : is_ident_char c = false -> digit_of_char c = None.
Proof. ascii_cases c; intros H; try discriminate H; reflexivity. Qed.

Lemma skip_ws_starter c r : starter c = true -> skip_ws (String c r) = String c r.
Proof.
  unfold starter. intros H. simpl.
  destruct (Ascii.eqb c " " || Nat.eqb (code c) 9); [discriminate H | reflexivity].
Qed.

(* ------------------------------------------------------------------ *)
(** ** Integers print and read back *)

Lemma scan_digits_print (u : uint) (rest : string) :
  free rest = true ->
  scan_digits (NilEmpty.string_of_uint u ++ rest) = (u, rest).
Proof.
  intros Hrest.
  induction u; simpl; try (rewrite IHu; reflexivity).
  destruct rest as [|c r]; [reflexivity|].
  simpl in Hrest. apply negb_true_iff in Hrest.
  simpl. now rewrite (digit_of_char_none c Hrest).
Qed.

Lemma valid_decimal_unorm (u : uint) : valid_decimal (unorm u) = true.
Proof. induction u; simpl; auto. Qed.

Lemma valid_decimal_to_uint (n : N) : valid_decimal (N.to_uint n) = true.
Proof.
  rewrite <- (DecimalN.Unsigned.of_to n) at 1.
  rewrite DecimalN.Unsigned.to_of. apply valid_decimal_unorm.
Qed.

Lemma parse_nat_print (n : N) (rest : string) :
  free rest = true ->
  parse_nat (str_of_N n ++ rest) = Some (n, rest).
Proof.
  intros Hrest. unfold parse_nat, str_of_N.
  rewrite (scan_digits_print _ _ Hrest), valid_decimal_to_uint.
  rewrite DecimalN.Unsigned.of_to.
  destruct rest as [|c r]; [reflexivity|].
  simpl in Hrest. apply negb_true_iff in Hrest. now rewrite Hrest.
Qed.

Lemma print_head (u : uint) :
  valid_decimal u = true ->
  exists c r, NilEmpty.string_of_uint u = String c r /\ is_digit c = true.
Proof.
  destruct u; simpl; intros H; try discriminate H; eauto.
Qed.

Lemma str_of_N_head (n : N) :
  exists c r, str_of_N n = String c r /\ is_digit c = true.
Proof. apply print_head, valid_decimal_to_uint. Qed.

(* ------------------------------------------------------------------ *)
(** ** Strings print and read back *)

Lemma parse_str_body_escape (q c : ascii) (rest : string) :
  q = squote \/ q = dquote ->
  parse_str_body q (escape_char q c ++ rest)
  = option_bind (parse_str_body q rest)
      (fun '(t, r) => Some (String c t, r)).
Proof.
  intros [-> | ->]; ascii_cases c; reflexivity.
Qed.

Lemma parse_str_body_print (q : ascii) (t rest : string) :
  q = squote \/ q = dquote ->
  parse_str_body q (escape_body q t ++ String q rest) = Some (t, rest).
Proof.
  intros Hq. induction t as [|c t IH]; simpl.
  - now rewrite Ascii.eqb_refl.
  - rewrite append_assoc, (parse_str_body_escape q c _ Hq), IH. reflexivity.
Qed.

Lemma quote_for_cases (t : string) : quote_for t = squote \/ quote_for t = dquote.
Proof.
  unfold quote_for.
  destruct (contains squote t && negb (contains dquote t)); auto.
Qed.

(* ------------------------------------------------------------------ *)
(** ** Every value prints and reads back *)

Lemma repr_head (v : value) (rest : string) :
  exists c r, py_repr v ++ rest = String c r /\ starter c = true.
Proof.
  destruct v as [| [] | z | t | l | l | d]; simpl; eauto.
  - destruct z as [|p|p]; simpl; eauto.
    destruct (str_of_N_head (Npos p)) as (c & r & E & D).
    rewrite E. simpl. eauto using is_digit_starter.
  - destruct (quote_for_cases t) as [-> | ->]; simpl; eauto.
  - destruct l as [|x [|y l]]; simpl; eauto.
Qed.

Lemma free_starter_false c r : starter c = false -> free (String c r) = true.
Proof. ascii_cases c; intros H; try discriminate H; reflexivity. Qed.

Lemma parse_value_digit f c r :
  is_digit c = true ->
  parse_value (S f) (String c r)
  = option_bind (parse_nat (String c r))
      (fun '(n, rest) => Some (VInt (Z.of_N n), rest)).
Proof. ascii_cases c; intros H; try discriminate H; reflexivity. Qed.

Lemma parse_value_int f z rest :
  free rest = true ->
  parse_value (S f) (str_of_Z z ++ rest) = Some (VInt z, rest).
Proof.
  intros Hrest. destruct z as [|p|p].
  - change (str_of_Z 0 ++ rest) with (str_of_N 0 ++ rest).
    destruct (str_of_N_head 0) as (c & r & E & D).
    pose proof (parse_nat_print 0 rest Hrest) as Hp.
    rewrite E in *. simpl append in *.
    rewrite (parse_value_digit f c _ D), Hp. reflexivity.
  - change (str_of_Z (Zpos p) ++ rest) with (str_of_N (Npos p) ++ rest).
    destruct (str_of_N_head (Npos p)) as (c & r & E & D).
    pose proof (parse_nat_print (Npos p) rest Hrest) as Hp.
    rewrite E in *. simpl append in *.
    rewrite (parse_value_digit f c _ D), Hp. reflexivity.
  - change (str_of_Z (Zneg p) ++ rest)
      with (String "-" (str_of_N (Npos p) ++ rest)).
    destruct (str_of_N_head (Npos p)) as (c & r & E & D).
    pose proof (parse_nat_print (Npos p) rest Hrest) as Hp.
    rewrite E in *. simpl append in *.
    change (parse_value (S f) (String "-" (String c (r ++ rest))))
      with (option_bind (parse_nat (skip_ws (String c (r ++ rest))))
              (fun '(n, rest) => Some (VInt (- Z.of_N n), rest))).
    rewrite (skip_ws_starter c _ (is_digit_starter c D)), Hp. reflexivity.
Qed.

Lemma parse_value_keyword f rest :
  free rest = true ->
  parse_value (S f) ("None" ++ rest) = Some (VNone, rest)
  /\ parse_value (S f) ("True" ++ rest) = Some (VBool true, rest)
  /\ parse_value (S f) ("False" ++ rest) = Some (VBool false, rest).
Proof.
  intros Hrest. destruct rest as [|c r]; [repeat split; reflexivity|].
  simpl in Hrest. apply negb_true_iff in Hrest.
  assert (E : forall kw v,
             parse_keyword kw v (kw ++ String c r) = Some (v, String c r)).
  { intros kw v. unfold parse_keyword.
    assert (P : strip_prefix kw (kw ++ String c r) = Some (String c r)).
    { induction kw as [|a kw IH]; simpl; [reflexivity|].
      now rewrite Ascii.eqb_refl. }
    rewrite P, Hrest. reflexivity. }
  repeat split.
  - change (parse_value (S f) ("None" ++ String c r))
      with (first_some (parse_keyword "None" VNone ("None" ++ String c r))
              (first_some
                 (parse_keyword "True" (VBool true) ("None" ++ String c r))
                 (parse_keyword "False" (VBool false) ("None" ++ String c r)))).
    now rewrite E.
  - change (parse_value (S f) ("True" ++ String c r))
      with (first_some (parse_keyword "None" VNone ("True" ++ String c r))
              (first_some
                 (parse_keyword "True" (VBool true) ("True" ++ String c r))
                 (parse_keyword "False" (VBool false) ("True" ++ String c r)))).
    now rewrite E.
  - change (parse_value (S f) ("False" ++ String c r))
      with (first_some (parse_keyword "None" VNone ("False" ++ String c r))
              (first_some
                 (parse_keyword "True" (VBool true) ("False" ++ String c r))
                 (parse_keyword "False" (VBool false) ("False" ++ String c r)))).
    now rewrite E.
Qed.

Lemma parse_value_quote f q s :
  q = squote \/ q = dquote ->
  parse_value (S f) (String q s)
  = option_bind (parse_str_body q s) (fun '(t, rest) => Some (VStr t, rest)).
Proof. intros [-> | ->]; reflexivity. Qed.

Lemma parse_value_str f t rest :
  parse_value (S f) (repr_str t ++ rest) = Some (VStr t, rest).
Proof.
  unfold repr_str. simpl append. rewrite append_assoc. simpl append.
  rewrite (parse_value_quote f _ _ (quote_for_cases t)).
  rewrite (parse_str_body_print _ t rest (quote_for_cases t)). reflexivity.
Qed.

(** One unfolding of each parser, as an equation. *)
Lemma parse_items_eq f close s :
  parse_items (S f) close s
  = match skip_ws s with
    | EmptyString => None
    | String c r =>
        if Ascii.eqb c close then Some ([], false, r)
        else
          option_bind (parse_value f (String c r))
            (fun '(x, r1) =>
               match skip_ws r1 with
               | EmptyString => None
               | String c1 r2 =>
                   if Ascii.eqb c1 close then Some ([x], false, r2)
                   else if Ascii.eqb c1 "," then
                     option_bind (parse_items f close r2)
                       (fun '(l, _, rest) => Some (x :: l, true, rest))
                   else None
               end)
    end.
Proof. reflexivity. Qed.

Lemma parse_entries_eq f s :
  parse_entries (S f) s
  = match skip_ws s with
    | EmptyString => None
    | String c r =>
        if Ascii.eqb c "}" then Some ([], r)
        else
          option_bind (parse_value f (String c r))
            (fun '(k, r1) =>
               match skip_ws r1 with
               | String c1 r2 =>
                   if Ascii.eqb c1 ":" then
                     option_bind (parse_value f r2)
                       (fun '(x, r3) =>
                          match skip_ws r3 with
                          | EmptyString => None
                          | String c3 r4 =>
                              if Ascii.eqb c3 "}" then Some ([(k, x)], r4)
                              else if Ascii.eqb c3 "," then
                                option_bind (parse_entries f r4)
                                  (fun '(d, rest) => Some ((k, x) :: d, rest))
                              else None
                          end)
                   else None
               | EmptyString => None
               end)
    end.
Proof. reflexivity. Qed.

Lemma parse_value_blank f s : parse_value f (String " " s) = parse_value f s.
Proof. destruct f; reflexivity. Qed.

Lemma parse_items_blank f close s :
  parse_items f close (String " " s) = parse_items f close s.
Proof. destruct f; reflexivity. Qed.

Lemma parse_entries_blank f s :
  parse_entries f (String " " s) = parse_entries f s.
Proof. destruct f; reflexivity. Qed.

Lemma starter_not_close c close :
  close = "]"%char \/ close = ")"%char \/ close = "}"%char ->
  starter c = true -> Ascii.eqb c close = false.
Proof.
  unfold starter. intros H S.
  apply andb_true_iff in S as [_ S]. apply negb_true_iff in S.
  apply orb_false_iff in S as [S S3]. apply orb_false_iff in S as [S1 S2].
  destruct H as [-> | [-> | ->]]; assumption.
Qed.

Lemma sep_cons (a : string) : ", " ++ a = String "," (String " " a).
Proof. reflexivity. Qed.

Lemma colon_cons (a : string) : ": " ++ a = String ":" (String " " a).
Proof. reflexivity. Qed.

(** The round trip through the parser alone. *)
Definition reads_back (v : value) : Prop :=
  forall f rest,
    (fuel_of v <= f)%nat -> free rest = true ->
    parse_value f (py_repr v ++ rest) = Some (v, rest).

Lemma chain_pos ms : (1 <= chain ms)%nat.
Proof. destruct ms; simpl; lia. Qed.

Lemma parse_items_print close l :
  close = "]"%char \/ close = ")"%char ->
  Forall reads_back l ->
  forall f rest,
    (chain (map fuel_of l) <= f)%nat ->
    parse_items f close (concat ", " (map py_repr l) ++ String close rest)
    = Some (l, Nat.leb 2 (List.length l), rest).
Proof.
  intros Hc HF.
  assert (Hc' : close = "]"%char \/ close = ")"%char \/ close = "}"%char) by tauto.
  assert (Hs : forall r, skip_ws (String close r) = String close r)
    by (destruct Hc as [-> | ->]; reflexivity).
  assert (Hfree : forall r, free (String close r) = true)
    by (destruct Hc as [-> | ->]; reflexivity).
  assert (Hcomma : Ascii.eqb "," close = false)
    by (destruct Hc as [-> | ->]; reflexivity).
  induction HF as [|x l Hx HF IH]; intros f rest Hf.
  - destruct f as [|f]; [simpl in Hf; lia|].
    simpl concat. simpl append.
    now rewrite parse_items_eq, Hs, Ascii.eqb_refl.
  - destruct f as [|f]; [simpl in Hf; lia|].
    simpl in Hf. rewrite parse_items_eq.
    destruct l as [|y l].
    + simpl concat.
      destruct (repr_head x (String close rest)) as (c & r & E & St).
      rewrite E, (skip_ws_starter _ _ St), (starter_not_close _ _ Hc' St), <- E.
      rewrite (Hx f (String close rest)); [|lia|apply Hfree].
      cbn [option_bind]. now rewrite Hs, Ascii.eqb_refl.
    + change (concat ", " (map py_repr (x :: y :: l)))
        with (py_repr x ++ ", " ++ concat ", " (map py_repr (y :: l))).
      rewrite !append_assoc, sep_cons.
      set (tail := concat ", " (map py_repr (y :: l)) ++ String close rest).
      destruct (repr_head x (String "," (String " " tail))) as (c & r & E & St).
      rewrite E, (skip_ws_starter _ _ St), (starter_not_close _ _ Hc' St), <- E.
      rewrite (Hx f (String "," (String " " tail))); [|lia|reflexivity].
      cbn [option_bind]. change (skip_ws (String "," (String " " tail)))
        with (String "," (String " " tail)).
      cbv beta iota. rewrite Hcomma. change (Ascii.eqb "," ",") with true. cbv iota.
      rewrite parse_items_blank. unfold tail.
      rewrite (IH f rest) by (simpl; simpl in Hf; lia).
      reflexivity.
Qed.

Lemma parse_entries_print d :
  Forall (fun kv => reads_back (fst kv) /\ reads_back (snd kv)) d ->
  forall f rest,
    (chain (map (fun '(k, x) => Nat.max (fuel_of k) (fuel_of x)) d) <= f)%nat ->
    parse_entries f
      (concat ", " (map (fun '(k, x) => py_repr k ++ ": " ++ py_repr x) d)
         ++ String "}" rest)
    = Some (d, rest).
Proof.
  assert (Hc' : "}"%char = "]"%char \/ "}"%char = ")"%char \/ "}"%char = "}"%char)
    by tauto.
  intros HF.
  induction HF as [|[k x] d [Hk Hx] HF IH]; intros f rest Hf.
  - destruct f as [|f]; [simpl in Hf; lia|]. reflexivity.
  - destruct f as [|f]; [simpl in Hf; lia|].
    simpl in Hf, Hk, Hx. rewrite parse_entries_eq.
    destruct d as [|[k2 x2] d].
    + change (concat ", " (map (fun '(k, x) => py_repr k ++ ": " ++ py_repr x) [(k, x)]))
        with (py_repr k ++ ": " ++ py_repr x).
      rewrite !append_assoc, colon_cons.
      destruct (repr_head k (String ":" (String " " (py_repr x ++ String "}" rest))))
        as (c & r & E & St).
      rewrite E, (skip_ws_starter _ _ St), (starter_not_close _ _ Hc' St), <- E.
      rewrite (Hk f _); [|lia|reflexivity].
      cbn [option_bind].
      change (skip_ws (String ":" (String " " (py_repr x ++ String "}" rest))))
        with (String ":" (String " " (py_repr x ++ String "}" rest))).
      cbv beta iota. change (Ascii.eqb ":" ":") with true. cbv iota.
      rewrite parse_value_blank, (Hx f _); [|lia|reflexivity].
      reflexivity.
    + set (pr := fun '(k, x) => py_repr k ++ ": " ++ py_repr x) in *.
      change (concat ", " (map pr ((k, x) :: (k2, x2) :: d)))
        with ((py_repr k ++ ": " ++ py_repr x) ++ ", "
              ++ concat ", " (map pr ((k2, x2) :: d))).
      rewrite !append_assoc, colon_cons, sep_cons.
      set (tail := concat ", " (map pr ((k2, x2) :: d)) ++ String "}" rest) in *.
      destruct (repr_head k
                  (String ":" (String " " (py_repr x ++ String "," (String " " tail)))))
        as (c & r & E & St).
      rewrite E, (skip_ws_starter _ _ St), (starter_not_close _ _ Hc' St), <- E.
      rewrite (Hk f _); [|lia|reflexivity].
      cbn [option_bind].
      change (skip_ws (String ":" (String " " (py_repr x ++ String "," (String " " tail)))))
        with (String ":" (String " " (py_repr x ++ String "," (String " " tail)))).
      cbv beta iota. change (Ascii.eqb ":" ":") with true. cbv iota.
      rewrite parse_value_blank, (Hx f _); [|lia|reflexivity].
      cbn [option_bind].
      change (skip_ws (String "," (String " " tail)))
        with (String "," (String " " tail)).
      cbv beta iota. change (Ascii.eqb "," "}") with false.
      change (Ascii.eqb "," ",") with true. cbv iota.
      rewrite parse_entries_blank. unfold tail.
      rewrite (IH f rest) by (simpl; simpl in Hf; lia).
      reflexivity.
Qed.

Lemma parse_value_list f s :
  parse_value (S f) (String "[" s)
  = option_bind (parse_items f "]" s)
      (fun '(l, _, rest) => Some (VList l, rest)).
Proof. reflexivity. Qed.

Lemma parse_value_tuple f s :
  parse_value (S f) (String "(" s)
  = option_bind (parse_items f ")" s)
      (fun '(l, comma, rest) =>
         match l, comma with
         | [x], false => Some (x, rest)
         | _, _ => Some (VTuple l, rest)
         end).
Proof. reflexivity. Qed.

Lemma parse_value_dict f s :
  parse_value (S f) (String "{" s)
  = option_bind (parse_entries f s) (fun '(d, rest) => Some (VDict d, rest)).
Proof. reflexivity. Qed.

Lemma close_cons (c : ascii) (a : string) : one c ++ a = String c a.
Proof. reflexivity. Qed.

Lemma parse_value_print (v : value) : reads_back v.
Proof.
  induction v as [| b | z | t | l IH | l IH | d IH] using value_ind';
    intros f rest Hf Hrest;
    (destruct f as [|f]; [simpl in Hf; lia|]).
  - apply parse_value_keyword, Hrest.
  - destruct b; apply parse_value_keyword, Hrest.
  - apply parse_value_int, Hrest.
  - apply parse_value_str.
  - change (py_repr (VList l))
      with ("[" ++ concat ", " (map py_repr l) ++ "]").
    rewrite !append_assoc.
    change ("[" ++ concat ", " (map py_repr l) ++ "]" ++ rest)
      with (String "[" (concat ", " (map py_repr l) ++ String "]" rest)).
    rewrite parse_value_list, (parse_items_print "]" l); auto.
    simpl in Hf. lia.
  - simpl in Hf. destruct l as [|x [|y l]].
    + destruct f as [|f]; [simpl in Hf; lia|]. reflexivity.
    + change (py_repr (VTuple [x]) ++ rest)
        with (String "(" ((py_repr x ++ ",)") ++ rest)).
      rewrite append_assoc.
      change (",)" ++ rest) with (String "," (String ")" rest)).
      rewrite parse_value_tuple.
      destruct f as [|f]; [simpl in Hf; lia|].
      rewrite parse_items_eq.
      destruct (repr_head x (String "," (String ")" rest))) as (c & r & E & St).
      rewrite E, (skip_ws_starter _ _ St).
      rewrite (starter_not_close c ")"); [|tauto|exact St].
      rewrite <- E. inversion IH as [|? ? Hx _]; subst.
      rewrite (Hx f _); [|simpl in Hf; lia|reflexivity].
      destruct f as [|f]; [pose proof (chain_pos []); simpl in Hf; lia|].
      reflexivity.
    + change (py_repr (VTuple (x :: y :: l)))
        with ("(" ++ concat ", " (map py_repr (x :: y :: l)) ++ ")").
      rewrite !append_assoc.
      change ("(" ++ concat ", " (map py_repr (x :: y :: l)) ++ ")" ++ rest)
        with (String "(" (concat ", " (map py_repr (x :: y :: l))
                            ++ String ")" rest)).
      rewrite parse_value_tuple, (parse_items_print ")" (x :: y :: l)); auto.
      lia.
  - change (py_repr (VDict d))
      with ("{" ++ concat ", "
                     (map (fun '(k, x) => py_repr k ++ ": " ++ py_repr x) d)
                ++ "}").
    rewrite !append_assoc.
    change ("{" ++ concat ", "
                     (map (fun '(k, x) => py_repr k ++ ": " ++ py_repr x) d)
                ++ "}" ++ rest)
      with (String "{"
              (concat ", "
                 (map (fun '(k, x) => py_repr k ++ ": " ++ py_repr x) d)
                 ++ String "}" rest)).
    rewrite parse_value_dict, (parse_entries_print d); auto.
    simpl in Hf. lia.
Qed.

(* ------------------------------------------------------------------ *)
(** ** The fuel [literal_eval] gives is enough *)

Lemma fuel_of_pos (v : value) : (1 <= fuel_of v)%nat.
Proof. destruct v; simpl; lia. Qed.

Lemma chain_concat {A : Type} (mf : A -> nat) (sf : A -> string) (l : list A) :
  Forall (fun a => (1 <= mf a <= String.length (sf a))%nat) l ->
  (chain (map mf l) <= 1 + String.length (concat ", " (map sf l)))%nat.
Proof.
  induction 1 as [|a l Ha HF IH]; [simpl; lia|].
  destruct l as [|b l].
  - simpl. lia.
  - change (concat ", " (map sf (a :: b :: l)))
      with (sf a ++ ", " ++ concat ", " (map sf (b :: l))).
    rewrite !length_append.
    change (chain (map mf (a :: b :: l)))
      with (S (Nat.max (mf a) (chain (map mf (b :: l))))).
    change (String.length ", ") with 2%nat. lia.
Qed.

Lemma fuel_of_length (v : value) : (fuel_of v <= String.length (py_repr v))%nat.
Proof.
  induction v as [| b | z | t | l IH | l IH | d IH] using value_ind'.
  - simpl. lia.
  - destruct b; simpl; lia.
  - destruct z as [|p|p]; simpl; try lia;
      destruct (str_of_N_head (Npos p)) as (c & r & E & _); rewrite E;
      simpl; lia.
  - simpl. lia.
  - change (py_repr (VList l))
      with ("[" ++ concat ", " (map py_repr l) ++ "]").
    rewrite !length_append. simpl fuel_of.
    pose proof (chain_concat fuel_of py_repr l) as H.
    change (String.length "[") with 1%nat.
    change (String.length "]") with 1%nat.
    enough ((chain (map fuel_of l)
             <= 1 + String.length (concat ", " (map py_repr l)))%nat) by lia.
    apply H. eapply Forall_impl; [|exact IH].
    intros a Ha. pose proof (fuel_of_pos a). simpl in Ha. lia.
  - destruct l as [|x [|y l]].
    + simpl. lia.
    + inversion IH as [|? ? Hx _]; subst.
      change (py_repr (VTuple [x])) with ("(" ++ py_repr x ++ ",)").
      rewrite !length_append. simpl. pose proof (fuel_of_pos x). lia.
    + change (py_repr (VTuple (x :: y :: l)))
        with ("(" ++ concat ", " (map py_repr (x :: y :: l)) ++ ")").
      rewrite !length_append.
      change (fuel_of (VTuple (x :: y :: l)))
        with (S (chain (map fuel_of (x :: y :: l)))).
      pose proof (chain_concat fuel_of py_repr (x :: y :: l)) as H.
      change (String.length "(") with 1%nat.
      change (String.length ")") with 1%nat.
      enough ((chain (map fuel_of (x :: y :: l))
               <= 1 + String.length (concat ", " (map py_repr (x :: y :: l))))%nat)
        by lia.
      apply H. eapply Forall_impl; [|exact IH].
      intros a Ha. pose proof (fuel_of_pos a). simpl in Ha. lia.
  - change (py_repr (VDict d))
      with ("{" ++ concat ", "
                     (map (fun '(k, x) => py_repr k ++ ": " ++ py_repr x) d)
                ++ "}").
    rewrite !length_append.
    change (fuel_of (VDict d))
      with (S (chain (map (fun '(k, x) => Nat.max (fuel_of k) (fuel_of x)) d))).
    pose proof (chain_concat
                  (fun '(k, x) => Nat.max (fuel_of k) (fuel_of x))
                  (fun '(k, x) => py_repr k ++ ": " ++ py_repr x) d) as H.
    change (String.length "{") with 1%nat.
    change (String.length "}") with 1%nat.
    enough ((chain (map (fun '(k, x) => Nat.max (fuel_of k) (fuel_of x)) d)
             <= 1 + String.length
                      (concat ", "
                         (map (fun '(k, x) => py_repr k ++ ": " ++ py_repr x) d)))%nat)
      by lia.
    apply H. eapply Forall_impl; [|exact IH].
    intros [k x] [Hk Hx]. simpl in Hk, Hx.
    rewrite !length_append. pose proof (fuel_of_pos k). lia.
Qed.

(* ------------------------------------------------------------------ *)
(** ** Building a proper value changes nothing *)

Lemma dict_set_fresh acc k x :
  forallb (fun k' => negb (key_eqb k' k)) (map fst acc) = true ->
  dict_set acc k x = (acc ++ [(k, x)])%list.
Proof.
  induction acc as [|[k' x'] acc IH]; simpl; [reflexivity|].
  intros H. apply andb_true_iff in H as [H1 H2].
  apply negb_true_iff in H1. rewrite H1, IH; auto.
Qed.

Lemma map_result_id (l : list value) :
  Forall (fun v => build v = Ok v) l -> map_result build l = Ok l.
Proof.
  induction 1 as [|x l Hx _ IH]; simpl; [reflexivity|].
  now rewrite Hx, IH.
Qed.

Lemma build_dict_id (d acc : list (value * value)) :
  Forall (fun kv => build (fst kv) = Ok (fst kv) /\ build (snd kv) = Ok (snd kv)
                    /\ hashable (fst kv) = true) d ->
  keys_distinct (map fst d) = true ->
  (forall k, In k (map fst d) ->
             forallb (fun k' => negb (key_eqb k' k)) (map fst acc) = true) ->
  build_dict build d acc = Ok (acc ++ d)%list.
Proof.
  intros HF. revert acc.
  induction HF as [|[k x] d (Hk & Hx & Hh) HF IH]; intros acc Hd Hacc.
  - simpl. now rewrite List.app_nil_r.
  - simpl in *. rewrite Hk, Hx. simpl. rewrite Hh.
    apply andb_true_iff in Hd as [Hd1 Hd2].
    rewrite dict_set_fresh by (apply Hacc; auto).
    rewrite IH; auto.
    + now rewrite <- List.app_assoc.
    + intros k2 Hin. rewrite List.map_app, List.forallb_app. simpl.
      rewrite (Hacc k2) by auto. simpl.
      rewrite forallb_forall in Hd1. rewrite (Hd1 k2 Hin). reflexivity.
Qed.

Lemma build_proper (v : value) : proper v = true -> build v = Ok v.
Proof.
  induction v as [| b | z | t | l IH | l IH | d IH] using value_ind';
    try reflexivity; simpl; intros H.
  - rewrite map_result_id; [reflexivity|].
    rewrite forallb_forall in H. rewrite Forall_forall in *. auto.
  - rewrite map_result_id; [reflexivity|].
    rewrite forallb_forall in H. rewrite Forall_forall in *. auto.
  - apply andb_true_iff in H as [H1 H2].
    rewrite build_dict_id; auto.
    rewrite forallb_forall in H1. rewrite Forall_forall in *.
    intros [k x] Hin. specialize (H1 _ Hin). specialize (IH _ Hin).
    simpl in *. apply andb_true_iff in H1 as [H1 Hx].
    apply andb_true_iff in H1 as [Hk Hh]. destruct IH; auto.
Qed.

(* ------------------------------------------------------------------ *)
(** ** [literal_eval (str v) = v] *)

Lemma only_blank_nil : only_blank EmptyString = true.
Proof. reflexivity. Qed.

Lemma literal_eval_repr (v : value) :
  proper v = true -> literal_eval (py_repr v) = Ok v.
Proof.
  intros Hv. unfold literal_eval.
  pose proof (parse_value_print v (S (String.length (py_repr v))) EmptyString)
    as H.
  rewrite append_nil_r in H. rewrite H.
  - simpl. now apply build_proper.
  - pose proof (fuel_of_length v). lia.
  - reflexivity.
Qed.

(* ------------------------------------------------------------------ *)
(** ** Portable values, names and defaults *)

Lemma portable_proper (v : value) : portable v = true -> proper v = true.
Proof.
  unfold portable. intros H.
  apply andb_true_iff in H as [H _]. apply andb_true_iff in H as [H _].
  exact H.
Qed.

Lemma portable_str_ok (v : value) : portable v = true -> str_ok v = true.
Proof.
  unfold portable. intros H.
  apply andb_true_iff in H as [H _]. apply andb_true_iff in H as [_ H].
  exact H.
Qed.

Lemma literal_eval_portable (v : value) :
  portable v = true -> literal_eval (py_repr v) = Ok v.
Proof. intros H. apply literal_eval_repr, portable_proper, H. Qed.

Lemma str_int (n : Z) :
  str_ok (VInt n) = true -> str (VInt n) = Ok (str_of_Z n).
Proof. intros H. unfold str. rewrite H. reflexivity. Qed.

Lemma str_list (l : list value) :
  str_ok (VList l) = true -> str (VList l) = Ok (py_repr (VList l)).
Proof. intros H. unfold str. rewrite H. reflexivity. Qed.

Lemma str_portable (v : value) :
  portable v = true -> str v = Ok (py_str v).
Proof.
  intros H. apply portable_str_ok in H. unfold str.
  destruct v; try reflexivity; rewrite H; reflexivity.
Qed.

Lemma strip_prefix_app (p t rest : string) :
  strip_prefix p t = Some rest -> t = p ++ rest.
Proof.
  revert t. induction p as [|a p IH]; intros t H.
  - simpl in H. injection H as <-. reflexivity.
  - destruct t as [|b t]; [discriminate H|]. simpl in H.
    destruct (Ascii.eqb a b) eqn:E; [|discriminate H].
    apply Ascii.eqb_eq in E. subst b. simpl. f_equal. apply IH, H.
Qed.

Lemma all_name_chars_app (a b : string) :
  all_name_chars (a ++ b) = true -> all_name_chars b = true.
Proof.
  induction a as [|c a IH]; simpl; intros H; [exact H|].
  apply andb_true_iff in H as [_ H]. apply IH, H.
Qed.

Lemma name_char_ident (c : ascii) :
  name_char c = true -> is_ident_char c = true.
Proof.
  unfold name_char, is_ident_char.
  destruct (is_alpha c), (is_digit c), (Ascii.eqb c "_"); simpl;
    intros H; try reflexivity; discriminate H.
Qed.

Lemma parse_keyword_name (kw : string) (v : value) (t : string) :
  all_name_chars t = true -> String.eqb t kw = false ->
  parse_keyword kw v t = None.
Proof.
  intros Hall Hne. unfold parse_keyword.
  destruct (strip_prefix kw t) as [rest|] eqn:E; [|reflexivity].
  apply strip_prefix_app in E. subst t.
  destruct rest as [|c r].
  - rewrite append_nil_r, String.eqb_refl in Hne. discriminate Hne.
  - apply all_name_chars_app in Hall. simpl in Hall.
    apply andb_true_iff in Hall as [Hc _].
    now rewrite (name_char_ident c Hc).
Qed.

Lemma parse_value_name_head f c r :
  name_char c = true -> is_digit c = false ->
  parse_value (S f) (String c r)
  = first_some (parse_keyword "None" VNone (String c r))
      (first_some (parse_keyword "True" (VBool true) (String c r))
         (parse_keyword "False" (VBool false) (String c r))).
Proof.
  ascii_cases c; intros H D; try discriminate H; try discriminate D;
    reflexivity.
Qed.

(** A name is no literal. *)
Lemma literal_eval_name (t : string) :
  is_name t = true -> literal_eval t = Raise SyntaxError.
Proof.
  destruct t as [|c r]; [discriminate|]. unfold is_name. intros H.
  apply andb_true_iff in H as [H H3]. apply andb_true_iff in H as [H H2].
  apply andb_true_iff in H as [H H1]. apply andb_true_iff in H as [Hd Hall].
  apply negb_true_iff in Hd, H1, H2, H3.
  unfold literal_eval. cbn [length].
  assert (Hc : name_char c = true).
  { simpl in Hall. now apply andb_true_iff in Hall as [Hc _]. }
  rewrite (parse_value_name_head _ c r Hc Hd).
  rewrite !parse_keyword_name by assumption. reflexivity.
Qed.

Lemma default_of_return (initstr_val dflt : value) :
  default_of initstr_val dflt -> default_return_val initstr_val = Ok dflt.
Proof.
  intros [[Ht ->] | [[Hp ->] | (t & Ht & -> & ->)]].
  - destruct initstr_val; try reflexivity. discriminate Ht.
  - simpl. now rewrite (literal_eval_portable dflt Hp).
  - simpl. destruct Ht as [-> | Ht]; [reflexivity|].
    now rewrite (literal_eval_name t Ht).
Qed.

Lemma in_file_text (n : Z) (name : string) :
  path_join (inpath ++ str_of_Z n) name = in_file n name.
Proof. reflexivity. Qed.

Lemma out_file_text (n : Z) (name : string) :
  path_join (outpath ++ str_of_Z n) name = out_file n name.
Proof. reflexivity. Qed.

(* ------------------------------------------------------------------ *)
(** ** Printed text and line ends *)

Lemma contains_app (c : ascii) (a b : string) :
  contains c (a ++ b) = contains c a || contains c b.
Proof.
  induction a as [|x a IH]; [reflexivity|].
  simpl. rewrite IH. now rewrite orb_assoc.
Qed.

Lemma universal_newlines_id (t : string) :
  contains cr t = false -> universal_newlines t = t.
Proof.
  induction t as [|c r IH]; [reflexivity|].
  simpl. destruct (Ascii.eqb c cr); [discriminate|].
  simpl. intros H. now rewrite IH.
Qed.

Lemma no_cr_digits (u : uint) : contains cr (NilEmpty.string_of_uint u) = false.
Proof. induction u; simpl; try reflexivity; exact IHu. Qed.

Lemma no_cr_int (z : Z) : contains cr (str_of_Z z) = false.
Proof. destruct z; try reflexivity; simpl; apply no_cr_digits. Qed.

Lemma no_cr_escape_char (q c : ascii) :
  q = squote \/ q = dquote -> contains cr (escape_char q c) = false.
Proof. intros [-> | ->]; ascii_cases c; reflexivity. Qed.

Lemma no_cr_repr_str (t : string) : contains cr (repr_str t) = false.
Proof.
  unfold repr_str.
  assert (Q : quote_for t = squote \/ quote_for t = dquote).
  { destruct (quote_for_cases t) as [E | E]; rewrite E; auto. }
  generalize dependent (quote_for t). intros q Q.
  assert (B : contains cr (escape_body q t) = false).
  { induction t as [|c r IH]; [reflexivity|].
    simpl. now rewrite contains_app, (no_cr_escape_char q c Q), IH. }
  change (String q (escape_body q t ++ one q))
    with (one q ++ escape_body q t ++ one q).
  rewrite !contains_app, B. destruct Q as [-> | ->]; reflexivity.
Qed.

Lemma no_cr_concat (sep : string) (l : list string) :
  contains cr sep = false ->
  Forall (fun x => contains cr x = false) l ->
  contains cr (concat sep l) = false.
Proof.
  intros Hs. induction 1 as [|x l Hx Hl IH]; [reflexivity|].
  destruct l as [|y l]; [exact Hx|].
  change (concat sep (x :: y :: l)) with (x ++ sep ++ concat sep (y :: l)).
  now rewrite !contains_app, Hx, Hs, IH.
Qed.

(** [repr] writes a carriage return as an escape: the printed text of a
    value has none. *)
Lemma no_cr_repr (v : value) : contains cr (py_repr v) = false.
Proof.
  induction v as [| b | z | t | l IH | l IH | d IH] using value_ind'.
  - reflexivity.
  - destruct b; reflexivity.
  - apply no_cr_int.
  - apply no_cr_repr_str.
  - simpl. rewrite !contains_app, no_cr_concat; [reflexivity..|].
    now apply Forall_map.
  - assert (C : contains cr (concat ", " (map py_repr l)) = false).
    { apply no_cr_concat; [reflexivity|]. now apply Forall_map. }
    destruct l as [|x [|y l]].
    + reflexivity.
    + simpl in C. simpl. now rewrite contains_app, C.
    + change (py_repr (VTuple (x :: y :: l)))
        with ("(" ++ concat ", " (map py_repr (x :: y :: l)) ++ ")").
      now rewrite !contains_app, C.
  - simpl. rewrite !contains_app, no_cr_concat; [reflexivity..|].
    apply Forall_map. eapply Forall_impl; [|exact IH].
    intros [k x] [Hk Hx]. simpl in Hk, Hx. cbv beta iota.
    rewrite !contains_app, Hk. simpl. exact Hx.
Qed.

Lemma universal_newlines_repr (v : value) :
  universal_newlines (py_repr v) = py_repr v.
Proof. apply universal_newlines_id, no_cr_repr. Qed.

(* ------------------------------------------------------------------ *)
(** ** Logical time *)




Lemma send_loop_simtime n attempt p msg st :
  simtime (fst (fst (send_loop n attempt p msg st))) = simtime st.
Proof.
  revert attempt p st. induction n as [|n IH]; intros attempt p st;
    [reflexivity|].
  simpl. destruct (send_script p (calls p)) as [|e]; [reflexivity|].
  destruct e; try reflexivity. rewrite IH. reflexivity.
Qed.





(* ------------------------------------------------------------------ *)
(** ** File ports: what a write leaves and what a read finds *)

Lemma map_id_on {A : Type} (f : A -> A) (l : list A) :
  Forall (fun a => f a = a) l -> map f l = l.
Proof.
  induction 1 as [|a l Ha _ IH]; simpl; [reflexivity | now rewrite Ha, IH].
Qed.

(** Without numpy scalars there is nothing to convert. *)
Lemma convert_numpy_to_python_id (v : value) : convert_numpy_to_python v = v.
Proof.
  induction v as [| b | z | t | l IH | l IH | d IH] using value_ind';
    try reflexivity; simpl.
  - now rewrite (map_id_on _ l IH).
  - now rewrite (map_id_on _ l IH).
  - f_equal. apply map_id_on. eapply Forall_impl; [|exact IH].
    intros [k x] [_ Hx]. simpl in Hx. now rewrite Hx.
Qed.

Lemma py_repr_list_head (l : list value) :
  py_repr (VList l)
  = String "[" (concat ", " (map py_repr l) ++ "]").
Proof. reflexivity. Qed.

Lemma py_repr_nonempty (v : value) : exists c r, py_repr v = String c r.
Proof.
  destruct (repr_head v EmptyString) as (c & r & E & _).
  rewrite append_nil_r in E. eauto.
Qed.

Lemma read_retry_nonempty k file_path c r st :
  read_retry k file_path (String c r) st = (st, String c r).
Proof. destruct k; reflexivity. Qed.

(** A list [write] through an integer file port, when the file can be
    opened and the envelope printed. *)
Lemma write_list_state n name v d st :
  str_ok (VInt n) = true ->
  readonly st (out_file n name) = false ->
  str_ok (VList (VInt (simtime st + d) :: v)) = true ->
  write (VInt n) name (VList v) (VInt d) st
  = (set_simtime (simtime st + d)
       (set_fs
          (fs_put (out_file n name)
             (Content (py_repr (VList (VInt (simtime st + d) :: v))))
             (fs st))
          (record (EvOpenWrite (out_file n name)) st)),
     Ok VNone).
Proof.
  intros Hn Hro Hs. unfold write.
  change (registered (VInt n) st) with (@None (string * zmq_port)).
  change (py_int (VInt n)) with (Ok n). cbv iota beta.
  rewrite (str_int n Hn). cbv iota beta. rewrite out_file_text.
  unfold write_file. rewrite Hro.
  rewrite convert_numpy_to_python_id.
  change (to_num (VInt d)) with (Some d). cbv iota beta zeta.
  rewrite (str_list _ Hs). cbv iota beta.
  rewrite universal_newlines_repr. reflexivity.
Qed.


(** A text that arrives after [j] empty polls is met by the loop at its
    round [j+1]. *)
Lemma read_retry_arrives k j c r file_path st :
  (j < k)%nat ->
  arrives j (String c r) file_path (peers st) (ticks st) (fs st) ->
  let res := read_retry k file_path EmptyString st in
  snd res = String c r
  /\ retrycount (fst res) = retrycount st + Z.of_nat (S j)
  /\ simtime (fst res) = simtime st
  /\ s (fst res) = s st
  /\ trace (fst res) = (trace st ++ retries (S j) (delay st) file_path)%list
  /\ log (fst res) = log st.
Proof.
  revert j st. induction k as [|k IH]; intros j st Hj Ha; [lia|].
  cbn [read_retry]. unfold open_read.
  change (fs (sleep (EvSleep (delay st)) st) file_path)
    with (peers st (ticks st) (fs st) file_path).
  destruct j as [|j]; simpl in Ha.
  - rewrite Ha. rewrite read_retry_nonempty. simpl.
    rewrite <- !List.app_assoc. repeat split.
  - destruct Ha as [He Ha]. rewrite He.
    match goal with
    | |- context [read_retry k file_path EmptyString ?t] =>
        specialize (IH j t); set (t0 := t) in *
    end.
    destruct IH as (I1 & I2 & I3 & I4 & I5 & I6); [lia|exact Ha|].
    cbv zeta. split; [exact I1|]. split.
    { rewrite I2. assert (E : retrycount t0 = retrycount st + 1) by reflexivity.
      lia. }
    split; [exact I3|]. split; [exact I4|]. split; [|exact I6].
    rewrite I5. unfold t0. simpl. rewrite <- !List.app_assoc. reflexivity.
Qed.

Lemma read_int_port n name initstr_val dflt st :
  default_return_val initstr_val = Ok dflt ->
  read (VInt n) name initstr_val st = read_file n name initstr_val dflt st.
Proof. intros H. unfold read. rewrite H. reflexivity. Qed.

(** A file-port [read] whose file is empty at [j] polls and then holds a
    text goes on to parse that text after [j] retries. *)
Lemma read_file_arrives n name initstr_val dflt j c r st :
  str_ok (VInt n) = true ->
  (j <= 5)%nat ->
  arrives j (String c r) (in_file n name) (peers st) (ticks st) (fs st) ->
  exists st2,
    read_file n name initstr_val dflt st
    = read_parse (in_file n name) (String c r) dflt st2
    /\ simtime st2 = simtime st
    /\ retrycount st2 = retrycount st + Z.of_nat j
    /\ s st2 = s st
    /\ log st2 = log st.
Proof.
  intros Hn Hj Ha. unfold read_file. rewrite (str_int n Hn). cbv iota beta.
  rewrite in_file_text. unfold read_text, open_read.
  change (fs (sleep (EvSleep (delay st)) st) (in_file n name))
    with (peers st (ticks st) (fs st) (in_file n name)).
  destruct j as [|j]; simpl in Ha.
  - rewrite Ha, read_retry_nonempty. eexists. split; [reflexivity|].
    simpl. repeat split; lia.
  - destruct Ha as [He Ha]. rewrite He. unfold max_retries.
    match goal with
    | |- context [read_retry 5 ?p EmptyString ?t] =>
        pose proof (read_retry_arrives 5 j c r p t) as L;
        destruct (read_retry 5 p EmptyString t) as [st3 ins]
    end.
    destruct L as (L1 & L2 & L3 & L4 & _ & L6); [lia|exact Ha|].
    simpl in L1, L2, L3, L4, L6. subst ins.
    exists st3. split; [reflexivity|]. repeat split; assumption.
Qed.

(** Parsing the printed text of a portable value. *)
Lemma read_parse_portable file_path v dflt st :
  portable v = true ->
  read_parse file_path (py_repr v) dflt st
  = let st1 := set_s (s st ++ py_repr v) st in
    match v with
    | VList (x :: rest) =>
        match to_num x with
        | Some t => (set_simtime (Z.max (simtime st) t) st1, Ok (VList rest))
        | None => (st1, Ok (VList rest))
        end
    | _ => (logging WARNING (UnexpectedFormat file_path (py_repr v)) st1, Ok v)
    end.
Proof.
  intros Hv. unfold read_parse. rewrite (literal_eval_portable v Hv).
  destruct v as [| b | z | t | l | l | d]; reflexivity.
Qed.

(** Reading a file that holds the printed text of a portable value, met
    after [j] retries. *)
Lemma read_portable n name initstr_val dflt j v st :
  str_ok (VInt n) = true ->
  default_of initstr_val dflt ->
  portable v = true ->
  (j <= 5)%nat ->
  arrives j (py_repr v) (in_file n name) (peers st) (ticks st) (fs st) ->
  exists st2,
    read (VInt n) name initstr_val st
    = read_parse (in_file n name) (py_repr v) dflt st2
    /\ simtime st2 = simtime st
    /\ retrycount st2 = retrycount st + Z.of_nat j
    /\ s st2 = s st
    /\ log st2 = log st.
Proof.
  intros Hn Hd Hv Hj Ha.
  rewrite (read_int_port n name initstr_val dflt st (default_of_return _ _ Hd)).
  destruct (py_repr_nonempty v) as (c & r & E). rewrite E in *.
  apply read_file_arrives; assumption.
Qed.


(* ------------------------------------------------------------------ *)
(** ** Logical time *)




(* ------------------------------------------------------------------ *)
(** ** Writing, then reading back *)




(* ------------------------------------------------------------------ *)
(** ** The retry loop *)

(** Against a file that stays empty, [k] rounds of the loop are [k]
    pauses, [k] attempts and [k] increments of the counter, and the text
    is still empty. *)
Lemma read_retry_empty k file_path st :
  stays_empty st file_path ->
  fs st file_path = Content EmptyString ->
  let r := read_retry k file_path EmptyString st in
  snd r = EmptyString
  /\ retrycount (fst r) = retrycount st + Z.of_nat k
  /\ trace (fst r) = (trace st ++ retries k (delay st) file_path)%list
  /\ log (fst r) = log st
  /\ simtime (fst r) = simtime st
  /\ s (fst r) = s st.
Proof.
  revert st. induction k as [|k IH]; intros st Hstay Hfs.
  - simpl. rewrite List.app_nil_r. repeat split; lia.
  - cbn [read_retry]. unfold open_read.
    change (fs (sleep (EvSleep (delay st)) st) file_path)
      with (peers st (ticks st) (fs st) file_path).
    rewrite (Hstay _ _ Hfs).
    match goal with
    | |- context [read_retry k file_path EmptyString ?t] =>
        specialize (IH t); set (st' := t) in *
    end.
    destruct IH as (I1 & I2 & I3 & I4 & I5 & I6).
    + exact Hstay.
    + exact (Hstay _ _ Hfs).
    + cbv zeta. repeat split; try assumption.
      * rewrite I2. unfold st'. simpl retrycount. lia.
      * rewrite I3. unfold st'. simpl trace. simpl delay.
        rewrite <- !List.app_assoc. reflexivity.
Qed.

(** C3 (amended): a [read] through an integer file port against a file
    that exists and stays empty through every attempt pauses and tries
    once, then makes exactly 5 retries, each after a pause of [delay], and
    returns the caller's default (the value it prints, when the default is
    the printed text of a value). *)
Theorem read_empty_file_retries
  (st : state) (n : Z) (name : string) (initstr_val dflt : value) :
  str_ok (VInt n) = true ->
  default_of initstr_val dflt ->
  fs st (in_file n name) = Content EmptyString ->
  stays_empty st (in_file n name) ->
  let r := read (VInt n) name initstr_val st in
  snd r = Ok dflt
  /\ retrycount (fst r) = retrycount st + 5
  /\ trace (fst r)
     = (trace st
          ++ EvSleep (delay st) :: EvOpenRead (in_file n name)
          :: retries 5 (delay st) (in_file n name))%list
  /\ log (fst r) = (log st ++ [(ERROR, MaxRetries (in_file n name))])%list
  /\ simtime (fst r) = simtime st.
Proof.
  intros Hn Hd Hfs Hstay.
  rewrite (read_int_port n name initstr_val dflt st (default_of_return _ _ Hd)).
  unfold read_file. rewrite (str_int n Hn). cbv iota beta.
  rewrite in_file_text. unfold read_text, open_read.
  change (fs (sleep (EvSleep (delay st)) st) (in_file n name))
    with (peers st (ticks st) (fs st) (in_file n name)).
  rewrite (Hstay _ _ Hfs). unfold max_retries.
  match goal with
  | |- context [read_retry 5 ?p EmptyString ?t] =>
      pose proof (read_retry_empty 5 p t Hstay (Hstay _ _ Hfs)) as H;
      destruct (read_retry 5 p EmptyString t) as [st3 ins]
  end.
  simpl in H. destruct H as (-> & H2 & H3 & H4 & H5 & _).
  simpl. repeat split.
  - exact H2.
  - rewrite H3, <- !List.app_assoc. reflexivity.
  - now rewrite H4.
  - exact H5.
Qed.

Lemma read_empty_file_retries_witness :
  let r := read (VInt 1) "x" (VStr "[0]") (with_empty_file "./in1/x") in
  snd r = Ok (VList [VInt 0])
  /\ retrycount (fst r) = 0 + 5
  /\ trace (fst r)
     = ([] ++ EvSleep 1 :: EvOpenRead "./in1/x"
           :: retries 5 1 "./in1/x")%list
  /\ log (fst r) = ([] ++ [(ERROR, MaxRetries "./in1/x")])%list
  /\ simtime (fst r) = 0.
Proof.
  apply (read_empty_file_retries (with_empty_file "./in1/x") 1 "x"
           (VStr "[0]") (VList [VInt 0])); try reflexivity.
  - right. left. split; reflexivity.
  - intros k f H. exact H.
Defined.

(** C3 as stated fails for a missing file: its content is taken to be the
    text of the default, so the loop is not entered (no retry, counter
    unchanged) and what comes back is the default without its first
    element. *)
Lemma read_missing_file_no_retry :
  let r := read (VInt 1) "x" (VStr "[0, 7]") fresh in
  fs fresh "./in1/x" = Missing
  /\ default_return_val (VStr "[0, 7]") = Ok (VList [VInt 0; VInt 7])
  /\ snd r = Ok (VList [VInt 7])
  /\ retrycount (fst r) = 0
  /\ trace (fst r) = [EvSleep 1; EvOpenRead "./in1/x"].
Proof.
  repeat split.
Qed.

(* ------------------------------------------------------------------ *)
(** ** Errors at the read/write boundary *)

(** C4: exceptions do cross the boundary.  [read] reads a string default
    as a literal under a handler for [SyntaxError] and [ValueError] only,
    and building the dict literal [{[1]: 2}] raises [TypeError]; [read]
    and [write] convert the port identifier with [int] under a handler for
    [ValueError] only, and [int(None)] raises [TypeError]. *)
Theorem read_write_raise_type_error :
  literal_eval "{[1]: 2}" = Raise TypeError
  /\ read (VInt 1) "x" (VStr "{[1]: 2}") fresh = (fresh, Raise TypeError)
  /\ read VNone "x" (VInt 0) fresh = (fresh, Raise TypeError)
  /\ write VNone "x" (VList []) (VInt 0) fresh = (fresh, Raise TypeError).
Proof.
  repeat split.
Qed.

(* ------------------------------------------------------------------ *)
(** ** Writing through a socket port *)

(** C5: the socket branch of [write] does not return.  With a socket
    registered under the name ["1"] the list is sent as it is, and then
    the file of port 1 is written with the envelope and the logical time
    advances by [delta]; with a socket registered under ["p"] the list is
    sent and then the invalid-port error is logged. *)
Theorem write_socket_falls_through :
  let r := write (VStr "1") "x" (VList [VInt 7]) (VInt 3) (with_socket "1") in
  let q := write (VStr "p") "x" (VList [VInt 7]) (VInt 3) (with_socket "p") in
  option_map sent (zmq_ports (fst r) "1") = Some [VList [VInt 7]]
  /\ fs (with_socket "1") "./out1/x" = Missing
  /\ fs (fst r) "./out1/x" = Content "[3, 7]"
  /\ simtime (with_socket "1") = 0
  /\ simtime (fst r) = 3
  /\ option_map sent (zmq_ports (fst q) "p") = Some [VList [VInt 7]]
  /\ log (fst q) = [(ERROR, InvalidPortIdentifier (VStr "p"))].
Proof.
  repeat split.
Qed.

(* ------------------------------------------------------------------ *)
(** ** Unsupported write type *)

(** C6: a [write] through an integer file port of a value that is
    neither text nor a list logs the unsupported-type error and does
    nothing else: no file is touched, the logical time stays, nothing is
    raised. *)
Theorem write_unsupported_type
  (st : state) (n : Z) (name : string) (val delta : value) :
  str_ok (VInt n) = true ->
  text_or_list val = false ->
  let r := write (VInt n) name val delta st in
  r = (logging ERROR (UnsupportedWriteType (out_file n name)) st, Ok VNone)
  /\ fs (fst r) = fs st
  /\ simtime (fst r) = simtime st
  /\ trace (fst r) = trace st
  /\ log (fst r)
     = (log st ++ [(ERROR, UnsupportedWriteType (out_file n name))])%list.
Proof.
  intros Hn Hval. unfold write.
  change (registered (VInt n) st) with (@None (string * zmq_port)).
  change (py_int (VInt n)) with (Ok n). cbv iota beta.
  rewrite (str_int n Hn). cbv iota beta. rewrite out_file_text.
  destruct val; try discriminate Hval; repeat split.
Qed.

Lemma write_unsupported_type_witness :
  let st := with_file "./out1/x" "[0, 1]" in
  let r := write (VInt 1) "x" (VInt 7) (VInt 3) st in
  (r = (logging ERROR (UnsupportedWriteType (out_file 1 "x")) st, Ok VNone)
   /\ fs (fst r) = fs st
   /\ simtime (fst r) = simtime st
   /\ trace (fst r) = trace st
   /\ log (fst r)
      = (log st ++ [(ERROR, UnsupportedWriteType (out_file 1 "x"))])%list)
  /\ fs (fst r) "./out1/x" = Content "[0, 1]".
Proof.
  split; [|reflexivity].
  apply (write_unsupported_type (with_file "./out1/x" "[0, 1]") 1 "x"
           (VInt 7) (VInt 3)); reflexivity.
Defined.

(* ------------------------------------------------------------------ *)
(** ** Parameter grammar *)

(** C7: the three examples of the grammar hold; a value whose literal
    raises [TypeError] is not replaced by its raw text: the exception
    leaves [parse_params]. *)
Theorem parse_params_examples :
  parse_params "a=1;b=foo;c=[1,2]"
  = Ok [(VStr "a", VInt 1); (VStr "b", VStr "foo");
        (VStr "c", VList [VInt 1; VInt 2])]
  /\ parse_params ("{" ++ dq "a" ++ ": 1, " ++ dq "b" ++ ": 2}")
     = Ok [(VStr "a", VInt 1); (VStr "b", VInt 2)]
  /\ parse_params EmptyString = Ok []
  /\ parse_params "a={[1]: 2}" = Raise TypeError.
Proof.
  repeat split.
Qed.

(* ------------------------------------------------------------------ *)
(** ** [initval] *)




(* ------------------------------------------------------------------ *)
(** ** [unchanged] *)

(** C9: [unchanged] compares the fingerprint [s] with [olds].  When they
    are equal it returns true and empties [s]; otherwise it stores [s] in
    [olds] and returns false.  Either way [olds] then holds the
    fingerprint as it was at this call, so the next call, at a
    fingerprint [now], returns true exactly when [now] is the fingerprint
    of this call. *)
Theorem unchanged_spec (st : state) (now : string) :
  let r := unchanged st in
  snd r = String.eqb (olds st) (s st)
  /\ (if snd r
      then s (fst r) = EmptyString /\ olds (fst r) = olds st
      else olds (fst r) = s st /\ s (fst r) = s st)
  /\ olds (fst r) = s st
  /\ simtime (fst r) = simtime st
  /\ snd (unchanged (set_s now (fst r))) = String.eqb (s st) now.
Proof.
  unfold unchanged.
  destruct (String.eqb_spec (olds st) (s st)) as [E | E]; simpl.
  - rewrite E. repeat split; auto.
    destruct (String.eqb (s st) now); reflexivity.
  - repeat split; auto.
    destruct (String.eqb (s st) now); reflexivity.
Qed.

(* ------------------------------------------------------------------ *)
(** ** A list whose first element is not a number *)



(* ------------------------------------------------------------------ *)
(** ** Which exceptions there are *)

Lemma map_result_raises (l : list value) e :
  Forall (fun v => forall e, build v = Raise e -> e = TypeError) l ->
  map_result build l = Raise e -> e = TypeError.
Proof.
  induction 1 as [|x l Hx _ IH]; simpl; [discriminate|].
  destruct (build x) as [x'|e1] eqn:Ex; simpl.
  - destruct (map_result build l) as [l'|e2]; simpl; [discriminate|].
    intros H. injection H as <-. now apply IH.
  - intros H. injection H as <-. now apply Hx.
Qed.

Lemma build_dict_raises (d acc : list (value * value)) e :
  Forall (fun kv => (forall e, build (fst kv) = Raise e -> e = TypeError)
                    /\ (forall e, build (snd kv) = Raise e -> e = TypeError)) d ->
  build_dict build d acc = Raise e -> e = TypeError.
Proof.
  intros HF. revert acc.
  induction HF as [|[k x] d [Hk Hx] _ IH]; intros acc; simpl; [discriminate|].
  simpl in Hk, Hx.
  destruct (build k) as [k'|e1] eqn:Ek; simpl;
    [|intros H; injection H as <-; now apply Hk].
  destruct (build x) as [x'|e2] eqn:Ex; simpl;
    [|intros H; injection H as <-; now apply Hx].
  destruct (hashable k'); [apply IH|].
  intros H. now injection H as <-.
Qed.

Lemma build_raises (v : value) e : build v = Raise e -> e = TypeError.
Proof.
  revert e.
  induction v as [| b | z | t | l IH | l IH | d IH] using value_ind';
    intros e; simpl; try discriminate.
  - destruct (map_result build l) as [l'|e1] eqn:E; simpl; [discriminate|].
    intros H. injection H as <-. exact (map_result_raises l e1 IH E).
  - destruct (map_result build l) as [l'|e1] eqn:E; simpl; [discriminate|].
    intros H. injection H as <-. exact (map_result_raises l e1 IH E).
  - destruct (build_dict build d []) as [d'|e1] eqn:E; simpl; [discriminate|].
    intros H. injection H as <-. exact (build_dict_raises d [] e1 IH E).
Qed.

(** [literal_eval] rejects a text or fails to hash a key: nothing else. *)
Lemma literal_eval_raises (text : string) e :
  literal_eval text = Raise e -> e = SyntaxError \/ e = TypeError.
Proof.
  unfold literal_eval.
  destruct (parse_value (S (String.length text)) text) as [[v rest]|].
  - destruct (only_blank rest).
    + intros H. right. exact (build_raises v e H).
    + intros H. injection H as <-. now left.
  - intros H. injection H as <-. now left.
Qed.

(* ------------------------------------------------------------------ *)
(** ** The parameter grammar *)

Lemma parse_params_loop_grammar (items : list string)
  (params : list (value * value)) :
  (forall item, In item items -> contains "=" item = true ->
                literal_eval (strip (snd (split_once "=" item)))
                <> Raise TypeError) ->
  parse_params_loop items params = Ok (fold_left grammar_step items params).
Proof.
  revert params. induction items as [|item items IH]; intros params H;
    [reflexivity|].
  simpl. unfold grammar_step at 2. unfold segment_entry.
  destruct (contains "=" item) eqn:Ec.
  - specialize (H item (or_introl eq_refl) Ec) as Hi.
    destruct (split_once "=" item) as [key val]. simpl in Hi.
    destruct (literal_eval (strip val)) as [v|e] eqn:El.
    + apply IH. intros; apply H; simpl; auto.
    + destruct (literal_eval_raises _ _ El) as [-> | ->]; [|congruence].
      apply IH. intros; apply H; simpl; auto.
  - apply IH. intros; apply H; simpl; auto.
Qed.

(** Apart from the full dict literal and from values whose literal raises
    [TypeError], [parse_params] is the grammar of the specification, both
    reading values with [literal_eval] as it is embedded here. *)
Lemma parse_params_follows_grammar (sparams : string) :
  sparams <> EmptyString ->
  parse_params_dict (strip sparams) = None ->
  (forall item, In item (split ";" (strip sparams)) ->
                contains "=" item = true ->
                literal_eval (strip (snd (split_once "=" item)))
                <> Raise TypeError) ->
  parse_params sparams = Ok (grammar_params sparams).
Proof.
  intros Hne Hd H. unfold parse_params, grammar_params.
  destruct sparams as [|c r]; [congruence|].
  rewrite Hd. now apply parse_params_loop_grammar.
Qed.

(* ================================================================== *)
(** * Further properties of the code *)

(* ------------------------------------------------------------------ *)
(** ** The retry loops of the sockets *)

Lemma send_times_out_next p n :
  send_times_out p (S n) -> send_times_out (called p) n.
Proof.
  intros H i Hi. simpl. rewrite <- Nat.add_succ_r. apply H. lia.
Qed.


Lemma send_loop_timeouts n a p msg st :
  send_times_out p n ->
  let r := send_loop n a p msg st in
  snd r = Ok VNone
  /\ sent (snd (fst r)) = sent p
  /\ calls (snd (fst r)) = (calls p + n)%nat
  /\ log (fst (fst r))
     = (log st ++ timeouts SendTimeout a n ++ [(ERROR, SendFailed)])%list
  /\ trace (fst (fst r)) = (trace st ++ repeat EvSleepHalf n)%list.
Proof.
  revert a p st. induction n as [|n IH]; intros a p st H.
  - simpl. rewrite Nat.add_0_r, List.app_nil_r. auto.
  - assert (E : send_script p (calls p) = SendRaise ZMQAgain)
      by (rewrite <- (Nat.add_0_r (calls p)); apply H; lia).
    cbn [send_loop]. rewrite E. cbv iota.
    match goal with
    | |- context [send_loop n ?a' ?p' msg ?t] =>
        specialize (IH a' p' t (send_times_out_next p n H))
    end.
    cbv zeta in IH. destruct IH as (I1 & I2 & I3 & I4 & I5).
    cbv zeta. repeat split.
    + exact I1.
    + rewrite I2. reflexivity.
    + rewrite I3. simpl. lia.
    + rewrite I4. simpl. rewrite <- !List.app_assoc. reflexivity.
    + rewrite I5. simpl. rewrite <- !List.app_assoc. reflexivity.
Qed.

Lemma send_loop_delivers n j a p msg st :
  (j < n)%nat ->
  send_times_out p j ->
  send_script p (calls p + j) = SendOk ->
  let r := send_loop n a p msg st in
  snd r = Ok VNone
  /\ sent (snd (fst r)) = (sent p ++ [msg])%list
  /\ calls (snd (fst r)) = (calls p + S j)%nat
  /\ log (fst (fst r)) = (log st ++ timeouts SendTimeout a j)%list
  /\ trace (fst (fst r)) = (trace st ++ repeat EvSleepHalf j)%list.
Proof.
  revert j a p st. induction n as [|n IH]; intros j a p st Hj H Hok; [lia|].
  cbn [send_loop]. destruct j as [|j].
  - rewrite Nat.add_0_r in Hok. rewrite Hok. simpl.
    rewrite !List.app_nil_r. repeat split. lia.
  - assert (E : send_script p (calls p) = SendRaise ZMQAgain)
      by (rewrite <- (Nat.add_0_r (calls p)); apply H; lia).
    rewrite E. cbv iota.
    match goal with
    | |- context [send_loop n ?a' ?p' msg ?t] =>
        specialize (IH j a' p' t)
    end.
    destruct IH as (I1 & I2 & I3 & I4 & I5).
    + lia.
    + apply send_times_out_next, H.
    + simpl. rewrite <- Nat.add_succ_r. exact Hok.
    + cbv zeta. repeat split.
      * exact I1.
      * rewrite I2. reflexivity.
      * rewrite I3. simpl. lia.
      * rewrite I4. simpl. rewrite <- !List.app_assoc. reflexivity.
      * rewrite I5. simpl. rewrite <- !List.app_assoc. reflexivity.
Qed.

Lemma send_loop_bounds n a p msg st :
  let r := send_loop n a p msg st in
  (sent (snd (fst r)) = sent p
   \/ (sent (snd (fst r)) = (sent p ++ [msg])%list /\ snd r = Ok VNone))
  /\ (calls p <= calls (snd (fst r)) <= calls p + n)%nat
  /\ snd r <> Raise ZMQAgain
  /\ send_script (snd (fst r)) = send_script p
  /\ recv_script (snd (fst r)) = recv_script p.
Proof.
  revert a p st. induction n as [|n IH]; intros a p st.
  - simpl. repeat split; auto; try lia. discriminate.
  - cbn [send_loop]. destruct (send_script p (calls p)) as [|e] eqn:E.
    + simpl. repeat split; auto; try lia. discriminate.
    + destruct e;
        try (simpl; repeat split; auto; try lia; discriminate).
      match goal with
      | |- context [send_loop n ?a' ?p' msg ?t] =>
          specialize (IH a' p' t)
      end.
      cbv zeta in IH. destruct IH as (I1 & I2 & I3 & I4 & I5).
      cbv zeta. simpl in I1, I2, I4, I5. repeat split; auto; lia.
Qed.

(** X1: against a socket that times out on every call,
    [send_json_with_retry] makes exactly 5 attempts, pausing half a second
    after each, logs the 5 timeouts and the final failure, drops the
    message and returns normally. *)
Theorem send_gives_up_after_five (p : zmq_port) (msg : value) (st : state) :
  send_times_out p 5 ->
  let r := send_json_with_retry p msg st in
  snd r = Ok VNone
  /\ sent (snd (fst r)) = sent p
  /\ calls (snd (fst r)) = (calls p + 5)%nat
  /\ log (fst (fst r))
     = (log st
          ++ [(WARNING, SendTimeout 1); (WARNING, SendTimeout 2);
              (WARNING, SendTimeout 3); (WARNING, SendTimeout 4);
              (WARNING, SendTimeout 5); (ERROR, SendFailed)])%list
  /\ trace (fst (fst r))
     = (trace st ++ [EvSleepHalf; EvSleepHalf; EvSleepHalf; EvSleepHalf;
                     EvSleepHalf])%list.
Proof.
  intros H. exact (send_loop_timeouts 5 0 p msg st H).
Qed.

Lemma send_gives_up_after_five_witness :
  let p := mkPort (fun _ => SendRaise ZMQAgain) (fun _ => RecvOk VNone) 0 [] in
  let r := send_json_with_retry p (VInt 7) fresh in
  snd r = Ok VNone /\ sent (snd (fst r)) = [] /\ calls (snd (fst r)) = 5%nat.
Proof.
  pose proof (send_gives_up_after_five
                (mkPort (fun _ => SendRaise ZMQAgain) (fun _ => RecvOk VNone)
                   0 [])
                (VInt 7) fresh (fun i _ => eq_refl)) as H.
  cbv zeta in H. destruct H as (H1 & H2 & H3 & _). auto.
Defined.

(** X2: when the socket times out [j] times (fewer than 5) and then
    accepts, [send_json_with_retry] delivers the message exactly once, on
    attempt [j + 1], after [j] pauses and [j] warnings, and stops. *)
Theorem send_delivers_once (p : zmq_port) (msg : value) (st : state) (j : nat) :
  (j < 5)%nat ->
  send_times_out p j ->
  send_script p (calls p + j) = SendOk ->
  let r := send_json_with_retry p msg st in
  snd r = Ok VNone
  /\ sent (snd (fst r)) = (sent p ++ [msg])%list
  /\ calls (snd (fst r)) = (calls p + S j)%nat
  /\ log (fst (fst r)) = (log st ++ timeouts SendTimeout 0 j)%list
  /\ trace (fst (fst r)) = (trace st ++ repeat EvSleepHalf j)%list.
Proof.
  intros Hj H Hok. exact (send_loop_delivers 5 j 0 p msg st Hj H Hok).
Qed.

Lemma send_delivers_once_witness :
  let p :=
    mkPort (fun k => if Nat.ltb k 2 then SendRaise ZMQAgain else SendOk)
      (fun _ => RecvOk VNone) 0 [] in
  let r := send_json_with_retry p (VInt 7) fresh in
  snd r = Ok VNone /\ sent (snd (fst r)) = [VInt 7]
  /\ calls (snd (fst r)) = 3%nat.
Proof.
  assert (H2 : (2 < 5)%nat) by lia.
  pose proof (send_delivers_once
                (mkPort
                   (fun k => if Nat.ltb k 2 then SendRaise ZMQAgain else SendOk)
                   (fun _ => RecvOk VNone) 0 [])
                (VInt 7) fresh 2 H2) as H.
  cbv zeta in H. destruct H as (H1 & H3 & H4 & _).
  - intros i Hi. simpl. destruct i as [|[|i]]; [reflexivity|reflexivity|lia].
  - reflexivity.
  - auto.
Defined.

(** X3: whatever the socket does, [send_json_with_retry] calls it at most
    5 times, sends the message at most once (and returns normally when it
    did), never lets a timeout out and leaves the socket's behaviour as it
    was. *)
Theorem send_at_most_once (p : zmq_port) (msg : value) (st : state) :
  let r := send_json_with_retry p msg st in
  (sent (snd (fst r)) = sent p
   \/ (sent (snd (fst r)) = (sent p ++ [msg])%list /\ snd r = Ok VNone))
  /\ (calls p <= calls (snd (fst r)) <= calls p + 5)%nat
  /\ snd r <> Raise ZMQAgain
  /\ send_script (snd (fst r)) = send_script p
  /\ recv_script (snd (fst r)) = recv_script p.
Proof.
  exact (send_loop_bounds 5 0 p msg st).
Qed.







(* ------------------------------------------------------------------ *)
(** ** What a call leaves alone *)

Lemma recv_loop_frame n a p st :
  let st' := fst (fst (recv_loop n a p st)) in
  simtime st' = simtime st /\ s st' = s st /\ olds st' = olds st
  /\ retrycount st' = retrycount st
  /\ (quiet st -> fs st' = fs st).
Proof.
  revert a p st. induction n as [|n IH]; intros a p st.
  - simpl. auto.
  - cbn [recv_loop]. destruct (recv_script p (calls p)) as [m|e].
    + simpl. auto.
    + destruct e; try (simpl; auto; fail).
      match goal with
      | |- context [recv_loop n ?a' ?p' ?t] =>
          specialize (IH a' p' t); set (t0 := t) in *
      end.
      cbv zeta in IH. destruct IH as (I1 & I2 & I3 & I4 & I5).
      cbv zeta. repeat split; try assumption.
      intros Q. rewrite (I5 Q). unfold t0. simpl. apply Q.
Qed.

Lemma send_loop_frame n a p msg st :
  let st' := fst (fst (send_loop n a p msg st)) in
  simtime st' = simtime st /\ s st' = s st /\ olds st' = olds st
  /\ retrycount st' = retrycount st
  /\ (quiet st -> fs st' = fs st).
Proof.
  revert a p st. induction n as [|n IH]; intros a p st.
  - simpl. auto.
  - cbn [send_loop]. destruct (send_script p (calls p)) as [|e].
    + simpl. auto.
    + destruct e; try (simpl; auto; fail).
      match goal with
      | |- context [send_loop n ?a' ?p' msg ?t] =>
          specialize (IH a' p' t); set (t0 := t) in *
      end.
      cbv zeta in IH. destruct IH as (I1 & I2 & I3 & I4 & I5).
      cbv zeta. repeat split; try assumption.
      intros Q. rewrite (I5 Q). unfold t0. simpl. apply Q.
Qed.

Lemma read_retry_frame k file_path ins st :
  let st' := fst (read_retry k file_path ins st) in
  s st' = s st /\ olds st' = olds st
  /\ retrycount st <= retrycount st' <= retrycount st + Z.of_nat k
  /\ (quiet st -> fs st' = fs st).
Proof.
  revert ins st. induction k as [|k IH]; intros ins st.
  - simpl. repeat split; auto; lia.
  - destruct ins as [|c r]; [|simpl; repeat split; auto; lia].
    cbn [read_retry]. unfold open_read.
    destruct (fs (sleep (EvSleep (delay st)) st) file_path) as [| |text];
      match goal with
      | |- context [read_retry k file_path ?i ?t] =>
          specialize (IH i t); set (t0 := t) in *
      end;
      cbv zeta in IH; destruct IH as (I1 & I2 & I3 & I4);
      cbv zeta;
      (split; [exact I1|]); (split; [exact I2|]);
      (split;
       [assert (E : retrycount t0 = retrycount st + 1) by reflexivity; lia|]);
      intros Q; rewrite (I4 Q); unfold t0; simpl; apply Q.
Qed.

Lemma read_text_frame file_path initstr_val st :
  let st' := fst (read_text file_path initstr_val st) in
  (exists suffix, s st' = s st ++ suffix)
  /\ olds st' = olds st
  /\ retrycount st <= retrycount st' <= retrycount st + 5
  /\ (quiet st -> fs st' = fs st).
Proof.
  assert (N : exists suffix, s st = s st ++ suffix)
    by (exists EmptyString; now rewrite append_nil_r).
  unfold read_text, open_read.
  destruct (fs st file_path) as [| |text].
  - destruct (str initstr_val) as [ins0|e];
      [|simpl; repeat split; auto; lia].
    match goal with
    | |- context [read_retry ?k ?p ?i ?t] =>
        pose proof (read_retry_frame k p i t) as H;
        destruct (read_retry k p i t) as [st3 ins]
    end.
    cbv zeta in H. simpl in H. destruct H as (H1 & H2 & H3 & H4).
    assert (G : (exists suffix, s st3 = s st ++ suffix)
                /\ olds st3 = olds st
                /\ retrycount st <= retrycount st3 <= retrycount st + 5
                /\ (quiet st -> fs st3 = fs st)).
    { repeat split; eauto; try lia. }
    destruct ins; exact G.
  - simpl. repeat split; auto; try lia.
  - match goal with
    | |- context [read_retry ?k ?p ?i ?t] =>
        pose proof (read_retry_frame k p i t) as H;
        destruct (read_retry k p i t) as [st3 ins]
    end.
    cbv zeta in H. simpl in H. destruct H as (H1 & H2 & H3 & H4).
    assert (G : (exists suffix, s st3 = s st ++ suffix)
                /\ olds st3 = olds st
                /\ retrycount st <= retrycount st3 <= retrycount st + 5
                /\ (quiet st -> fs st3 = fs st)).
    { repeat split; auto; try lia. rewrite H1. exact N. }
    destruct ins; exact G.
Qed.

Lemma read_parse_frame file_path ins dflt st :
  let st' := fst (read_parse file_path ins dflt st) in
  s st' = s st ++ ins /\ olds st' = olds st
  /\ retrycount st' = retrycount st /\ fs st' = fs st.
Proof.
  unfold read_parse.
  destruct (literal_eval ins) as [v|e]; [|simpl; auto].
  destruct v as [| b | z | t | l | l | d]; try (simpl; auto; fail).
  destruct l as [|x rest]; [simpl; auto|].
  destruct (to_num x); simpl; auto.
Qed.

Lemma read_frame port_identifier name initstr_val st :
  let st' := fst (read port_identifier name initstr_val st) in
  (exists suffix, s st' = s st ++ suffix)
  /\ olds st' = olds st
  /\ retrycount st <= retrycount st' <= retrycount st + 5
  /\ (quiet st -> fs st' = fs st).
Proof.
  assert (N : exists suffix, s st = s st ++ suffix)
    by (exists EmptyString; now rewrite append_nil_r).
  unfold read.
  destruct (default_return_val initstr_val) as [dflt|e];
    [|simpl; (split; [exact N|]); (split; [reflexivity|]);
      (split; [lia|]); reflexivity].
  destruct (registered port_identifier st) as [[pname zmq_p]|].
  - unfold recv_json_with_retry.
    pose proof (recv_loop_frame 5 0 zmq_p st) as H. cbv zeta in H.
    destruct (recv_loop 5 0 zmq_p st) as [[st1 p1] r]. simpl in H.
    destruct H as (_ & H2 & H3 & H4 & H5).
    assert (G : (exists suffix, s st1 = s st ++ suffix)
                /\ olds st1 = olds st
                /\ retrycount st <= retrycount st1 <= retrycount st + 5
                /\ (quiet st -> fs st1 = fs st)).
    { rewrite H2, H3, H4. split; [exact N|]. split; [reflexivity|].
      split; [lia|]. exact H5. }
    destruct r as [m|e]; [exact G|]. destruct e; exact G.
  - destruct (py_int port_identifier) as [n|e].
    + unfold read_file.
      destruct (str (VInt n)) as [port_text|e].
      * match goal with
        | |- context [read_text ?p ?i ?t] =>
            pose proof (read_text_frame p i t) as H;
            destruct (read_text p i t) as [st2 text]
        end.
        cbv zeta in H. simpl in H. destruct H as ([x Hx] & H2 & H3 & H4).
        assert (Q : quiet st -> fs st2 = fs st).
        { intros Q. rewrite H4 by exact Q. simpl. apply Q. }
        destruct text as [[ins|]|e].
        -- match goal with
           | |- context [read_parse ?p ?i ?d ?t] =>
               pose proof (read_parse_frame p i d t) as P
           end.
           cbv zeta in P. destruct P as (P1 & P2 & P3 & P4).
           cbv zeta. rewrite P1, P2, P3, P4, Hx.
           split; [exists (x ++ ins); simpl; now rewrite append_assoc|].
           split; [exact H2|]. split; [exact H3|]. exact Q.
        -- simpl. split; [eauto|]. split; [exact H2|]. split; [exact H3|].
           exact Q.
        -- simpl. split; [eauto|]. split; [exact H2|]. split; [exact H3|].
           exact Q.
      * simpl. split; [exact N|]. split; [reflexivity|]. split; [lia|].
        intros Q. apply Q.
    + destruct e; simpl; (split; [exact N|]); (split; [reflexivity|]);
        (split; [lia|]); reflexivity.
Qed.

Lemma read_retries_bound_aux port_identifier name initstr_val st :
  retrycount st
  <= retrycount (fst (read port_identifier name initstr_val st))
  <= retrycount st + 5.
Proof.
  exact (proj1 (proj2 (proj2 (read_frame port_identifier name initstr_val st)))).
Qed.

(** X6: whatever the files and sockets do, one [read] raises the retry
    counter by at most 5 and never lowers it. *)
Theorem read_retries_at_most_five
  (st : state) (port_identifier : value) (name : string) (initstr_val : value) :
  let st' := fst (read port_identifier name initstr_val st) in
  retrycount st <= retrycount st' <= retrycount st + 5.
Proof.
  exact (read_retries_bound_aux port_identifier name initstr_val st).
Qed.

Lemma write_frame_aux port_identifier name val delta st :
  let after_write := fst (write port_identifier name val delta st) in
  s after_write = s st
  /\ olds after_write = olds st
  /\ retrycount after_write = retrycount st.
Proof.
  unfold write.
  set (st1 := match registered port_identifier st with
              | Some (pname, zmq_p) => _
              | None => st
              end).
  assert (H1 : s st1 = s st /\ olds st1 = olds st
               /\ retrycount st1 = retrycount st).
  { unfold st1. destruct (registered port_identifier st) as [[pname zmq_p]|];
      [|auto].
    unfold send_json_with_retry.
    pose proof (send_loop_frame 5 0 zmq_p val st) as H. cbv zeta in H.
    destruct (send_loop 5 0 zmq_p val st) as [[st' p'] r]. simpl in H.
    destruct H as (_ & H2 & H3 & H4 & _).
    destruct r as [m|e]; [auto|]. destruct e; auto. }
  clearbody st1. destruct H1 as (A & B & C).
  destruct (py_int port_identifier) as [n|e].
  - destruct (str (VInt n)) as [port_text|e];
      [|destruct (str port_identifier); simpl; repeat split; assumption].
    destruct val; simpl; try (repeat split; assumption);
      unfold write_file;
      match goal with
      | |- context [readonly ?t ?p] => destruct (readonly t p)
      end; simpl; try (repeat split; assumption);
      destruct (to_num delta); simpl; try (repeat split; assumption);
      match goal with
      | |- context [str ?v] => destruct (str v)
      end; simpl; repeat split; assumption.
  - destruct e; simpl; repeat split; assumption.
Qed.

(** X8: a [read] only appends to the fingerprint [s] and leaves [olds]
    alone; a [write] leaves the fingerprint, [olds] and the retry counter
    as they were. *)
Theorem fingerprint_only_grows
  (st : state) (port_identifier : value) (name : string)
  (initstr_val val delta : value) :
  let after_read := fst (read port_identifier name initstr_val st) in
  let after_write := fst (write port_identifier name val delta st) in
  (exists suffix, s after_read = s st ++ suffix)
  /\ olds after_read = olds st
  /\ s after_write = s st
  /\ olds after_write = olds st
  /\ retrycount after_write = retrycount st.
Proof.
  intros after_read after_write.
  destruct (read_frame port_identifier name initstr_val st) as (R1 & R2 & _).
  split; [exact R1|]. split; [exact R2|].
  exact (write_frame_aux port_identifier name val delta st).
Qed.

(** X9: a [read] never writes to a file: with peers that do nothing, the
    file system after the call is the file system before it. *)
Theorem read_never_writes_files
  (st : state) (port_identifier : value) (name : string) (initstr_val : value) :
  quiet st ->
  fs (fst (read port_identifier name initstr_val st)) = fs st.
Proof.
  intros Q.
  exact (proj2 (proj2 (proj2 (read_frame port_identifier name initstr_val st)))
           Q).
Qed.

Lemma read_never_writes_files_witness :
  fs (fst (read (VInt 1) "x" (VStr "[0, 7]")
             (with_file "./in1/x" "[3, 4]")))
  = fs (with_file "./in1/x" "[3, 4]").
Proof.
  apply (read_never_writes_files (with_file "./in1/x" "[3, 4]") (VInt 1) "x"
           (VStr "[0, 7]")).
  intros k f. reflexivity.
Defined.
(* ------------------------------------------------------------------ *)
(** ** Polling a file *)

(** X7: [read] waits for a slow writer.  When the input file of an
    integer file port is empty at [j] polls in a row (at most 5) and then
    holds the printed envelope [[t, item, ...]], [read] makes exactly [j]
    retries, returns the items and advances the logical time to the
    maximum of the time and [t]. *)
Theorem read_waits_for_writer
  (st : state) (n : Z) (name : string) (initstr_val dflt : value)
  (j : nat) (t : Z) (items : list value) :
  str_ok (VInt n) = true ->
  default_of initstr_val dflt ->
  portable (VList (VInt t :: items)) = true ->
  (j <= 5)%nat ->
  arrives j (py_repr (VList (VInt t :: items))) (in_file n name)
    (peers st) (ticks st) (fs st) ->
  let res := read (VInt n) name initstr_val st in
  snd res = Ok (VList items)
  /\ simtime (fst res) = Z.max (simtime st) t
  /\ retrycount (fst res) = retrycount st + Z.of_nat j
  /\ s (fst res) = s st ++ py_repr (VList (VInt t :: items)).
Proof.
  intros Hn Hd Hv Hj Ha.
  destruct (read_portable n name initstr_val dflt j _ st Hn Hd Hv Hj Ha)
    as (st2 & E & H2 & H3 & H4 & _).
  cbv zeta. rewrite E, (read_parse_portable _ _ dflt st2 Hv). cbv zeta.
  change (to_num (VInt t)) with (Some t). cbv iota beta.
  cbn [fst snd simtime retrycount s set_simtime set_s].
  rewrite H2, H3, H4. repeat split.
Qed.

Lemma read_waits_for_writer_witness :
  let st := with_slow_writer "./in1/u" "[4, 5]" in
  let res := read (VInt 1) "u" (VStr "[0, 0]") st in
  snd res = Ok (VList [VInt 5])
  /\ simtime (fst res) = Z.max (simtime st) 4
  /\ retrycount (fst res) = retrycount st + Z.of_nat 1
  /\ s (fst res) = s st ++ "[4, 5]".
Proof.
  apply (read_waits_for_writer (with_slow_writer "./in1/u" "[4, 5]") 1 "u"
           (VStr "[0, 0]") (VList [VInt 0; VInt 0]) 1 4 [VInt 5]);
    try reflexivity.
  - right. left. split; reflexivity.
  - lia.
  - split; reflexivity.
Defined.

(** X23: a missing input file is read as the text of the default.  When
    the default is an envelope [[t, item, ...]], given as a list or as its
    printed text, the [read] returns the items, advances the logical time
    to the maximum of the time and [t], makes no retry and adds the text
    to the fingerprint twice. *)
Theorem read_missing_file_uses_default
  (st : state) (n : Z) (name : string) (initstr_val : value)
  (t : Z) (v : list value) :
  str_ok (VInt n) = true ->
  portable (VList (VInt t :: v)) = true ->
  initstr_val = VList (VInt t :: v)
  \/ initstr_val = VStr (py_repr (VList (VInt t :: v))) ->
  peers st (ticks st) (fs st) (in_file n name) = Missing ->
  let res := read (VInt n) name initstr_val st in
  snd res = Ok (VList v)
  /\ simtime (fst res) = Z.max (simtime st) t
  /\ retrycount (fst res) = retrycount st
  /\ s (fst res)
     = s st ++ py_repr (VList (VInt t :: v)) ++ py_repr (VList (VInt t :: v)).
Proof.
  intros Hn Hv Hinit Hmiss.
  assert (Hd : default_of initstr_val (VList (VInt t :: v))).
  { destruct Hinit as [-> | ->].
    - left. split; reflexivity.
    - right. left. split; [exact Hv | reflexivity]. }
  assert (Hs : str initstr_val = Ok (py_repr (VList (VInt t :: v)))).
  { destruct Hinit as [-> | ->]; [|reflexivity].
    apply str_list, portable_str_ok, Hv. }
  rewrite (read_int_port n name initstr_val _ st (default_of_return _ _ Hd)).
  unfold read_file. rewrite (str_int n Hn). cbv iota beta.
  rewrite in_file_text. unfold read_text, open_read.
  change (fs (sleep (EvSleep (delay st)) st) (in_file n name))
    with (peers st (ticks st) (fs st) (in_file n name)).
  rewrite Hmiss, Hs. cbv iota beta.
  rewrite py_repr_list_head, read_retry_nonempty.
  rewrite <- py_repr_list_head.
  rewrite (read_parse_portable _ _ _ _ Hv). cbv zeta.
  change (to_num (VInt t)) with (Some t). cbv iota beta.
  simpl. rewrite append_assoc. repeat split.
Qed.

Lemma read_missing_file_uses_default_witness :
  let res := read (VInt 1) "u" (VStr "[2, 7, 8]") fresh in
  snd res = Ok (VList [VInt 7; VInt 8])
  /\ simtime (fst res) = Z.max (simtime fresh) 2
  /\ retrycount (fst res) = retrycount fresh
  /\ s (fst res) = s fresh ++ "[2, 7, 8]" ++ "[2, 7, 8]".
Proof.
  apply (read_missing_file_uses_default fresh 1 "u" (VStr "[2, 7, 8]")
           2 [VInt 7; VInt 8]); try reflexivity.
  right. reflexivity.
Defined.

(** X24: when the input file of an integer file port holds the printed
    text of a value that is not a non-empty list (a number, a string, a
    dict, a tuple, the empty list), [read] returns that value as it is,
    logs a warning and leaves the logical time alone. *)
Theorem read_returns_other_literals_whole
  (st : state) (n : Z) (name : string) (initstr_val dflt v : value) :
  str_ok (VInt n) = true ->
  default_of initstr_val dflt ->
  portable v = true ->
  is_envelope v = false ->
  peers st (ticks st) (fs st) (in_file n name) = Content (py_repr v) ->
  let res := read (VInt n) name initstr_val st in
  snd res = Ok v
  /\ simtime (fst res) = simtime st
  /\ log (fst res)
     = (log st
          ++ [(WARNING, UnexpectedFormat (in_file n name) (py_repr v))])%list.
Proof.
  intros Hn Hd Hv Hshape Hfile.
  destruct (read_portable n name initstr_val dflt 0 v st Hn Hd Hv
              (Nat.le_0_l 5) Hfile) as (st2 & E & H2 & _ & _ & H5).
  cbv zeta. rewrite E, (read_parse_portable _ _ dflt st2 Hv). cbv zeta.
  destruct v as [| b | z | t | l | l | d];
    try (cbn [fst snd simtime log logging set_log set_s];
         rewrite H2, H5; repeat split; fail).
  destruct l; [|discriminate Hshape].
  cbn [fst snd simtime log logging set_log set_s].
  rewrite H2, H5. repeat split.
Qed.

Lemma read_returns_other_literals_whole_witness :
  let st := with_file "./in1/u" "{'k': 1}" in
  let res := read (VInt 1) "u" (VStr "[0, 0]") st in
  snd res = Ok (VDict [(VStr "k", VInt 1)])
  /\ simtime (fst res) = simtime st
  /\ log (fst res)
     = (log st
          ++ [(WARNING,
               UnexpectedFormat (in_file 1 "u")
                 (py_repr (VDict [(VStr "k", VInt 1)])))])%list.
Proof.
  apply (read_returns_other_literals_whole (with_file "./in1/u" "{'k': 1}")
           1 "u" (VStr "[0, 0]") (VList [VInt 0; VInt 0])
           (VDict [(VStr "k", VInt 1)])); try reflexivity.
  right. left. split; reflexivity.
Defined.

(* ------------------------------------------------------------------ *)
(** ** Writing a file *)

Lemma fs_put_same path x f : fs_put path x f path = x.
Proof. unfold fs_put. now rewrite String.eqb_refl. Qed.

(** X11: a string written through an integer file port is written as it
    is, after a pause of twice the polling delay: the file then reads
    back as exactly the string (a carriage return in it as a line end),
    [delta] is not looked at and the logical time does not move. *)
Theorem write_string_verbatim
  (st : state) (n : Z) (name t : string) (delta : value) :
  str_ok (VInt n) = true ->
  readonly st (out_file n name) = false ->
  let res := write (VInt n) name (VStr t) delta st in
  snd res = Ok VNone
  /\ fs (fst res) (out_file n name) = Content (universal_newlines t)
  /\ (contains cr t = false -> fs (fst res) (out_file n name) = Content t)
  /\ simtime (fst res) = simtime st
  /\ log (fst res) = log st
  /\ trace (fst res)
     = (trace st ++ [EvSleep (2 * delay st); EvOpenWrite (out_file n name)])%list.
Proof.
  intros Hn Hro. unfold write.
  change (registered (VInt n) st) with (@None (string * zmq_port)).
  change (py_int (VInt n)) with (Ok n). cbv iota beta.
  rewrite (str_int n Hn). cbv iota beta. rewrite out_file_text.
  unfold write_file.
  change (readonly (sleep (EvSleep (2 * delay st)) st) (out_file n name))
    with (readonly st (out_file n name)).
  rewrite Hro. cbn [fst snd fs simtime log trace set_fs sleep record set_trace
                      set_ticks py_str].
  rewrite fs_put_same, <- List.app_assoc.
  split; [reflexivity|]. split; [reflexivity|]. split.
  { intros Hcr. now rewrite (universal_newlines_id t Hcr). }
  repeat split.
Qed.

Lemma write_string_verbatim_witness :
  let res := write (VInt 1) "x" (VStr "hello") (VStr "no number") fresh in
  snd res = Ok VNone
  /\ fs (fst res) (out_file 1 "x") = Content (universal_newlines "hello")
  /\ (contains cr "hello" = false ->
      fs (fst res) (out_file 1 "x") = Content "hello")
  /\ simtime (fst res) = simtime fresh
  /\ log (fst res) = log fresh
  /\ trace (fst res)
     = (trace fresh
          ++ [EvSleep (2 * delay fresh); EvOpenWrite (out_file 1 "x")])%list.
Proof.
  apply (write_string_verbatim fresh 1 "x" "hello" (VStr "no number"));
    reflexivity.
Defined.

(** X12: a list written through an integer file port with a [delta] that
    is not a number loses the file: opening has emptied it when the sum
    fails, so the file is left empty, the error is logged and the logical
    time does not move. *)
Theorem write_bad_delta_empties_file
  (st : state) (n : Z) (name : string) (v : list value) (delta : value) :
  str_ok (VInt n) = true ->
  readonly st (out_file n name) = false ->
  to_num delta = None ->
  let res := write (VInt n) name (VList v) delta st in
  snd res = Ok VNone
  /\ fs (fst res) (out_file n name) = Content EmptyString
  /\ simtime (fst res) = simtime st
  /\ log (fst res) = (log st ++ [(ERROR, WriteError (out_file n name))])%list.
Proof.
  intros Hn Hro Hd. unfold write.
  change (registered (VInt n) st) with (@None (string * zmq_port)).
  change (py_int (VInt n)) with (Ok n). cbv iota beta.
  rewrite (str_int n Hn). cbv iota beta. rewrite out_file_text.
  unfold write_file. rewrite Hro, Hd.
  simpl. rewrite fs_put_same. repeat split.
Qed.

Lemma write_bad_delta_empties_file_witness :
  let st := with_file "./out1/x" "[0, 1]" in
  let res := write (VInt 1) "x" (VList [VInt 7]) VNone st in
  fs st (out_file 1 "x") = Content "[0, 1]"
  /\ (snd res = Ok VNone
      /\ fs (fst res) (out_file 1 "x") = Content EmptyString
      /\ simtime (fst res) = simtime st
      /\ log (fst res)
         = (log st ++ [(ERROR, WriteError (out_file 1 "x"))])%list).
Proof.
  split; [reflexivity|].
  apply (write_bad_delta_empties_file (with_file "./out1/x" "[0, 1]")
           1 "x" [VInt 7] VNone); reflexivity.
Defined.

Lemma str_int_inv (n : Z) (t : string) :
  str (VInt n) = Ok t -> t = str_of_Z n.
Proof.
  unfold str. destruct (str_ok (VInt n)); [|discriminate].
  intros H. now injection H as <-.
Qed.

Lemma str_list_inv (l : list value) (t : string) :
  str (VList l) = Ok t -> t = py_repr (VList l).
Proof.
  unfold str. destruct (str_ok (VList l)); [|discriminate].
  intros H. now injection H as <-.
Qed.

(** X13: the logical time moves only together with the file: when a
    [write] changes the logical time, the value was a list and the output
    file of the port holds exactly its envelope, stamped with the new
    time. *)
Theorem write_time_moves_with_file
  (st : state) (port_identifier : value) (name : string) (val delta : value) :
  let res := write port_identifier name val delta st in
  simtime (fst res) <> simtime st ->
  exists n v,
    py_int port_identifier = Ok n
    /\ convert_numpy_to_python val = VList v
    /\ fs (fst res) (out_file n name)
       = Content (py_repr (VList (VInt (simtime (fst res)) :: v))).
Proof.
  unfold write.
  set (st1 := match registered port_identifier st with
              | Some (pname, zmq_p) => _
              | None => st
              end).
  assert (H1 : simtime st1 = simtime st).
  { unfold st1. destruct (registered port_identifier st) as [[pname zmq_p]|];
      [|reflexivity].
    unfold send_json_with_retry.
    pose proof (send_loop_simtime 5 0 zmq_p val st) as H.
    destruct (send_loop 5 0 zmq_p val st) as [[st' p'] r]. simpl in H.
    destruct r as [m|e]; [exact H|]. destruct e; exact H. }
  clearbody st1. cbv zeta.
  destruct (py_int port_identifier) as [n|e].
  - destruct (str (VInt n)) as [port_text|e] eqn:Ep;
      [|destruct (str port_identifier); simpl; intros H; congruence].
    apply str_int_inv in Ep. subst port_text. rewrite out_file_text.
    destruct val as [| b | z | t | l | l | d]; simpl fst;
      try (simpl; intros H; congruence).
    + unfold write_file.
      match goal with
      | |- context [readonly ?t ?p] => destruct (readonly t p)
      end; simpl; intros H; congruence.
    + unfold write_file. destruct (readonly st1 (out_file n name));
        [simpl; intros H; congruence|].
      rewrite convert_numpy_to_python_id.
      destruct (to_num delta) as [d0|]; [|simpl; intros H; congruence].
      cbv zeta.
      destruct (str (VList (VInt (simtime st1 + d0) :: l))) as [text|e]
        eqn:Es; [|simpl; intros H; congruence].
      apply str_list_inv in Es. subst text.
      intros _. exists n, l. cbn [simtime set_simtime fs set_fs].
      rewrite fs_put_same, universal_newlines_repr. repeat split.
  - destruct e; simpl; intros H; congruence.
Qed.

Lemma write_time_moves_with_file_witness :
  let res := write (VInt 1) "x" (VList [VInt 7]) (VInt 2) fresh in
  exists n v,
    py_int (VInt 1) = Ok n
    /\ convert_numpy_to_python (VList [VInt 7]) = VList v
    /\ fs (fst res) (out_file n "x")
       = Content (py_repr (VList (VInt (simtime (fst res)) :: v))).
Proof.
  apply (write_time_moves_with_file fresh (VInt 1) "x" (VList [VInt 7]) (VInt 2)).
  discriminate.
Defined.

(* ------------------------------------------------------------------ *)
(** ** Seeding the logical time *)



(* ------------------------------------------------------------------ *)
(** ** Repeated calls of [unchanged] *)

Lemma unchanged_calls_add j k st :
  unchanged_calls (j + k) st = unchanged_calls k (unchanged_calls j st).
Proof.
  revert st. induction j as [|j IH]; intros st; [reflexivity|].
  simpl. apply IH.
Qed.

Lemma unchanged_calls_empty k st :
  olds st = EmptyString -> s st = EmptyString ->
  olds (unchanged_calls k st) = EmptyString
  /\ s (unchanged_calls k st) = EmptyString.
Proof.
  revert st. induction k as [|k IH]; intros st Ho Hs; [auto|].
  simpl. apply IH; unfold unchanged; rewrite Ho, Hs; simpl; auto.
Qed.

(** X16: with no read in between, [unchanged] settles: after three calls
    the fingerprint and its previous value are both empty, and every
    later call returns true. *)
Theorem unchanged_settles (st : state) (k : nat) :
  olds (unchanged_calls 3 st) = EmptyString
  /\ s (unchanged_calls 3 st) = EmptyString
  /\ snd (unchanged (unchanged_calls (3 + k) st)) = true.
Proof.
  assert (H3 : olds (unchanged_calls 3 st) = EmptyString
               /\ s (unchanged_calls 3 st) = EmptyString).
  { simpl. unfold unchanged.
    destruct (String.eqb_spec (olds st) (s st)) as [E | E]; simpl.
    - destruct (String.eqb_spec (olds st) EmptyString) as [E1 | E1]; simpl.
      + rewrite E1. simpl. auto.
      + auto.
    - rewrite String.eqb_refl. simpl.
      destruct (String.eqb_spec (s st) EmptyString) as [E1 | E1]; simpl; auto. }
  destruct H3 as [Ho Hs]. split; [exact Ho|]. split; [exact Hs|].
  rewrite unchanged_calls_add.
  destruct (unchanged_calls_empty k _ Ho Hs) as [Ho' Hs'].
  unfold unchanged. rewrite Ho', Hs'. reflexivity.
Qed.

(* ------------------------------------------------------------------ *)
(** ** Stripping and splitting *)

Lemma rev_string_acc (a acc : string) :
  rev_string a acc = rev_string a EmptyString ++ acc.
Proof.
  revert acc. induction a as [|c a IH]; intros acc; [reflexivity|].
  simpl. rewrite IH, (IH (String c EmptyString)), append_assoc. reflexivity.
Qed.

Lemma rev_string_app (a b acc : string) :
  rev_string (a ++ b) acc = rev_string b (rev_string a acc).
Proof.
  revert acc. induction a as [|c a IH]; intros acc; [reflexivity|].
  simpl. apply IH.
Qed.

Lemma rev_string_involutive (a : string) :
  rev_string (rev_string a EmptyString) EmptyString = a.
Proof.
  induction a as [|c a IH]; [reflexivity|].
  simpl. rewrite (rev_string_acc a (String c EmptyString)), rev_string_app.
  simpl. now rewrite IH.
Qed.

Lemma rev_string_last (a : string) (c : ascii) :
  rev_string (a ++ one c) EmptyString = String c (rev_string a EmptyString).
Proof. rewrite rev_string_app. reflexivity. Qed.

Lemma lstrip_head (c : ascii) (r : string) :
  is_space c = false -> lstrip (String c r) = String c r.
Proof. intros H. simpl. now rewrite H. Qed.

Lemma rstrip_last (a : string) (c : ascii) :
  is_space c = false -> rstrip (a ++ one c) = a ++ one c.
Proof.
  intros H. unfold rstrip. rewrite rev_string_last, (lstrip_head c _ H).
  rewrite <- rev_string_last. apply rev_string_involutive.
Qed.

(** A text with no blank at either end is its own [strip]. *)
Lemma strip_id (t : string) :
  (exists c r, t = String c r /\ is_space c = false) ->
  (exists a c, t = a ++ one c /\ is_space c = false) ->
  strip t = t.
Proof.
  intros (c & r & E & H) (a & c' & E' & H'). unfold strip.
  rewrite E, (lstrip_head c r H), <- E, E'. now apply rstrip_last.
Qed.

Lemma split_no_sep (sep : ascii) (t : string) :
  contains sep t = false -> split sep t = [t].
Proof.
  induction t as [|c t IH]; [reflexivity|].
  simpl. intros H. apply orb_false_iff in H as [H1 H2].
  rewrite H1, (IH H2). reflexivity.
Qed.

Lemma split_once_app (sep : ascii) (a b : string) :
  contains sep a = false -> split_once sep (a ++ String sep b) = (a, b).
Proof.
  induction a as [|c a IH]; simpl.
  - now rewrite Ascii.eqb_refl.
  - intros H. apply orb_false_iff in H as [H1 H2].
    now rewrite H1, (IH H2).
Qed.



(* ------------------------------------------------------------------ *)
(** ** The two ends of a printed value *)

Lemma is_digit_not_space c : is_digit c = true -> is_space c = false.
Proof. ascii_cases c; intros H; try discriminate H; reflexivity. Qed.

Lemma print_last (u : uint) :
  u <> Nil ->
  exists a c, NilEmpty.string_of_uint u = a ++ one c /\ is_digit c = true.
Proof.
  induction u; intros H; try congruence;
    (destruct (uint_eq_dec u Nil) as [-> | N];
     [eexists EmptyString, _; split; reflexivity
     | destruct (IHu N) as (a & c & E & D); simpl; rewrite E;
       eexists (String _ a), c; split; [reflexivity | exact D]]).
Qed.

Lemma str_of_N_last (n : N) :
  exists a c, str_of_N n = a ++ one c /\ is_digit c = true.
Proof.
  apply print_last. intros E.
  pose proof (valid_decimal_to_uint n) as V. rewrite E in V. discriminate V.
Qed.

Lemma close_last (a : string) (c : ascii) (b : string) :
  a ++ b ++ one c = (a ++ b) ++ one c.
Proof. now rewrite append_assoc. Qed.

Lemma repr_ends (v : value) :
  (exists c r, py_repr v = String c r /\ is_space c = false)
  /\ (exists a c, py_repr v = a ++ one c /\ is_space c = false).
Proof.
  destruct v as [| [] | z | t | l | l | d].
  - split; [exists "N"%char, "one" | exists "Non", "e"%char]; auto.
  - split; [exists "T"%char, "rue" | exists "Tru", "e"%char]; auto.
  - split; [exists "F"%char, "alse" | exists "Fals", "e"%char]; auto.
  - destruct z as [|p|p]; simpl.
    + split; [exists "0"%char, EmptyString | exists EmptyString, "0"%char];
        auto.
    + destruct (str_of_N_head (Npos p)) as (c & r & E & D).
      destruct (str_of_N_last (Npos p)) as (a & c' & E' & D').
      split; [exists c, r | exists a, c']; auto using is_digit_not_space.
    + destruct (str_of_N_last (Npos p)) as (a & c' & E' & D').
      split; [exists "-"%char, (str_of_N (Npos p)); auto|].
      exists (String "-" a), c'. rewrite E'. auto using is_digit_not_space.
  - unfold py_repr, repr_str. split.
    + exists (quote_for t), (escape_body (quote_for t) t ++ one (quote_for t)).
      split; [reflexivity|].
      destruct (quote_for_cases t) as [-> | ->]; reflexivity.
    + exists (String (quote_for t) (escape_body (quote_for t) t)),
        (quote_for t).
      split; [reflexivity|].
      destruct (quote_for_cases t) as [-> | ->]; reflexivity.
  - split.
    + eexists "["%char, _. split; [reflexivity | reflexivity].
    + exists ("[" ++ concat ", " (map py_repr l)), "]"%char.
      split; [apply close_last | reflexivity].
  - split.
    + destruct l as [|x [|y l]]; eexists "("%char, _;
        (split; [reflexivity | reflexivity]).
    + destruct l as [|x [|y l]].
      * exists "(", ")"%char. auto.
      * exists ("(" ++ py_repr x ++ ","), ")"%char. split; [|reflexivity].
        change (py_repr (VTuple [x])) with ("(" ++ py_repr x ++ "," ++ one ")").
        now rewrite !append_assoc.
      * exists ("(" ++ concat ", " (map py_repr (x :: y :: l))), ")"%char.
        split; [apply close_last | reflexivity].
  - split.
    + eexists "{"%char, _. split; [reflexivity | reflexivity].
    + eexists ("{" ++ concat ", " _), "}"%char.
      split; [apply close_last | reflexivity].
Qed.

Lemma strip_repr (v : value) : strip (py_repr v) = py_repr v.
Proof. destruct (repr_ends v) as [H1 H2]. now apply strip_id. Qed.

(* ------------------------------------------------------------------ *)
(** ** Plain parameter names *)

Lemma plain_contains (key : string) :
  plain key = true ->
  contains "=" key = false /\ contains ";" key = false.
Proof.
  induction key as [|c key IH]; [auto|].
  simpl. intros H. apply andb_true_iff in H as [H HP].
  apply andb_true_iff in H as [H HD]. apply andb_true_iff in H as [H HC].
  apply andb_true_iff in H as [HA HB].
  apply negb_true_iff in HB, HC. destruct (IH HP) as [A B].
  now rewrite HB, HC, A, B.
Qed.

Lemma plain_ends (key : string) :
  plain key = true ->
  key = EmptyString
  \/ ((exists c r, key = String c r /\ is_space c = false
                   /\ Ascii.eqb c "{" = false)
      /\ (exists a c, key = a ++ one c /\ is_space c = false)).
Proof.
  induction key as [|c key IH]; [auto|].
  simpl. intros H. apply andb_true_iff in H as [H HP].
  apply andb_true_iff in H as [H HD]. apply andb_true_iff in H as [H HC].
  apply andb_true_iff in H as [HA HB].
  apply negb_true_iff in HA, HD. right. split; [eauto|].
  destruct (IH HP) as [-> | [_ (a & c' & E & S)]].
  - exists EmptyString, c. auto.
  - exists (String c a), c'. rewrite E. auto.
Qed.

Lemma strip_plain (key : string) : plain key = true -> strip key = key.
Proof.
  intros H. destruct (plain_ends key H) as [-> | [(c & r & E & S & _) L]];
    [reflexivity|].
  apply strip_id; eauto.
Qed.

(* ------------------------------------------------------------------ *)
(** ** Parameters *)

(** X17: a parameter text made of blanks only gives the empty mapping. *)
Theorem parse_params_blank (sparams : string) :
  strip sparams = EmptyString -> parse_params sparams = Ok [].
Proof.
  intros H. unfold parse_params. destruct sparams as [|c r]; [reflexivity|].
  rewrite H. reflexivity.
Qed.

Lemma parse_params_blank_witness :
  parse_params (String " " (String (ascii_of_nat 9) (String (ascii_of_nat 10) " ")))
  = Ok [].
Proof.
  apply parse_params_blank. reflexivity.
Defined.

Lemma key_value_text (key : string) (v : value) :
  plain key = true ->
  let text := key ++ "=" ++ py_repr v in
  strip text = text /\ startswith text "{" = false.
Proof.
  intros Hk text.
  destruct (repr_ends v) as [_ (a & c & E & S)].
  assert (L : exists a' c', text = a' ++ one c' /\ is_space c' = false).
  { exists (key ++ "=" ++ a), c. unfold text. rewrite E.
    now rewrite !append_assoc. }
  destruct (plain_ends key Hk) as [K | [(c0 & r0 & K & S0 & B0) _]].
  - subst key. split; [|reflexivity].
    apply strip_id; [|exact L]. eexists "="%char, _. split; reflexivity.
  - split.
    + apply strip_id; [|exact L]. unfold text. rewrite K. simpl. eauto.
    + unfold text. rewrite K. simpl. exact B0.
Qed.

(** One parameter reads back. *)
Lemma parse_params_key_value (key : string) (v : value) :
  plain key = true ->
  proper v = true ->
  contains ";" (py_repr v) = false ->
  parse_params (key ++ "=" ++ py_repr v) = Ok [(VStr key, v)].
Proof.
  intros Hk Hv Hsemi.
  destruct (key_value_text key v Hk) as [Hstrip Hbrace].
  destruct (plain_contains key Hk) as [Keq Ksemi].
  unfold parse_params.
  destruct (key ++ "=" ++ py_repr v) as [|c0 r0] eqn:T.
  { destruct key; discriminate T. }
  rewrite <- T in *. rewrite Hstrip.
  unfold parse_params_dict. rewrite Hbrace. simpl andb. cbv iota.
  rewrite split_no_sep
    by (rewrite !contains_app, Ksemi, Hsemi; reflexivity).
  cbn [parse_params_loop].
  assert (C : contains "=" (key ++ "=" ++ py_repr v) = true).
  { rewrite contains_app. simpl. now rewrite orb_true_r. }
  rewrite C.
  change (key ++ "=" ++ py_repr v) with (key ++ String "=" (py_repr v)).
  rewrite (split_once_app "=" key (py_repr v) Keq).
  rewrite (strip_plain key Hk), strip_repr, (literal_eval_repr v Hv).
  reflexivity.
Qed.

(** X18: one parameter reads back.  For a name without blanks, [=], [;]
    or [{], and a portable value whose printed text ([repr]) holds no
    [;], the text made of the name, [=] and that printed text parses to
    the mapping of that name to that value. *)
Theorem parse_params_single (key : string) (v : value) :
  plain key = true ->
  portable v = true ->
  contains ";" (py_repr v) = false ->
  parse_params (key ++ "=" ++ py_repr v) = Ok [(VStr key, v)].
Proof.
  intros Hk Hv Hsemi.
  exact (parse_params_key_value key v Hk (portable_proper v Hv) Hsemi).
Qed.

Lemma parse_params_single_witness :
  parse_params ("gain" ++ "=" ++ py_repr (VList [VInt 1; VStr "a b"]))
  = Ok [(VStr "gain", VList [VInt 1; VStr "a b"])].
Proof.
  apply (parse_params_single "gain" (VList [VInt 1; VStr "a b"]));
    reflexivity.
Defined.









(* ------------------------------------------------------------------ *)
(** ** Runs of calls *)




(** X26: lists written one after the other through an integer file port,
    to files that can all be opened and with envelopes that are all
    portable, advance the logical time by the sum of their [delta]s. *)
Theorem write_all_adds_deltas
  (st : state) (n : Z) (items : list (string * list value * Z)) :
  str_ok (VInt n) = true ->
  (forall path, readonly st path = false) ->
  envelopes_portable (simtime st) items = true ->
  simtime (write_all (VInt n) items st) = simtime st + total items.
Proof.
  intros Hn. revert st.
  induction items as [|[[name v] d] items IH]; intros st Hro Hp.
  - simpl. lia.
  - cbn [write_all total]. cbn [envelopes_portable] in Hp.
    apply andb_true_iff in Hp as [Hv Hp].
    rewrite (write_list_state n name v d st Hn (Hro _) (portable_str_ok _ Hv)).
    cbn [fst]. rewrite IH.
    + simpl. lia.
    + exact Hro.
    + exact Hp.
Qed.

Lemma write_all_adds_deltas_witness :
  simtime (write_all (VInt 1)
             [("u", [VInt 7], 2); ("u", [VInt 8], 0); ("w", [], 3)] fresh)
  = simtime fresh + total [("u", [VInt 7], 2); ("u", [VInt 8], 0); ("w", [], 3)].
Proof.
  apply (write_all_adds_deltas fresh 1); reflexivity.
Defined.

(* ------------------------------------------------------------------ *)
(** ** A socket that fails *)



(* ------------------------------------------------------------------ *)
(** ** Integers too long to print *)

(** X28: an integer port number of more than 4300 digits cannot be
    printed into a path.  A [read] through it raises [ValueError] after
    its polling pause; a [write] through it raises [ValueError] from the
    handler that meant to log the invalid port, and has done nothing. *)
Theorem unprintable_port_raises
  (st : state) (n : Z) (name : string) (initstr_val dflt val delta : value) :
  str_ok (VInt n) = false ->
  default_of initstr_val dflt ->
  read (VInt n) name initstr_val st
  = (sleep (EvSleep (delay st)) st, Raise ValueError)
  /\ write (VInt n) name val delta st = (st, Raise ValueError).
Proof.
  intros Hn Hd. split.
  - rewrite (read_int_port n name initstr_val dflt st
               (default_of_return _ _ Hd)).
    unfold read_file, str. rewrite Hn. reflexivity.
  - unfold write.
    change (registered (VInt n) st) with (@None (string * zmq_port)).
    change (py_int (VInt n)) with (Ok n). cbv iota beta.
    unfold str. rewrite Hn. reflexivity.
Qed.

Lemma unprintable_port_raises_witness :
  read (VInt int_str_limit) "x" (VInt 0) fresh
  = (sleep (EvSleep (delay fresh)) fresh, Raise ValueError)
  /\ write (VInt int_str_limit) "x" (VList []) (VInt 0) fresh
     = (fresh, Raise ValueError).
Proof.
  apply (unprintable_port_raises fresh int_str_limit "x" (VInt 0) (VInt 0)
           (VList []) (VInt 0)).
  - vm_compute. reflexivity.
  - left. split; reflexivity.
Defined.

(** X29: a list whose envelope cannot be printed (it holds an integer of
    more than 4300 digits, or the new time is one) loses the file: [str]
    raises after the file was opened, so the file is left empty, the
    write error is logged and the logical time does not move. *)
Theorem write_unprintable_empties_file
  (st : state) (n : Z) (name : string) (v : list value) (d : Z) :
  str_ok (VInt n) = true ->
  readonly st (out_file n name) = false ->
  str_ok (VList (VInt (simtime st + d) :: v)) = false ->
  let res := write (VInt n) name (VList v) (VInt d) st in
  snd res = Ok VNone
  /\ fs (fst res) (out_file n name) = Content EmptyString
  /\ simtime (fst res) = simtime st
  /\ log (fst res) = (log st ++ [(ERROR, WriteError (out_file n name))])%list.
Proof.
  intros Hn Hro Hs. unfold write.
  change (registered (VInt n) st) with (@None (string * zmq_port)).
  change (py_int (VInt n)) with (Ok n). cbv iota beta.
  rewrite (str_int n Hn). cbv iota beta. rewrite out_file_text.
  unfold write_file. rewrite Hro, convert_numpy_to_python_id.
  change (to_num (VInt d)) with (Some d). cbv iota beta zeta.
  unfold str. rewrite Hs.
  cbn [fst snd fs simtime log logging set_log set_fs record set_trace].
  rewrite fs_put_same. repeat split.
Qed.

Lemma write_unprintable_empties_file_witness :
  let st := with_file "./out1/x" "[0, 1]" in
  let res := write (VInt 1) "x" (VList [VInt int_str_limit]) (VInt 0) st in
  snd res = Ok VNone
  /\ fs (fst res) (out_file 1 "x") = Content EmptyString
  /\ simtime (fst res) = simtime st
  /\ log (fst res) = (log st ++ [(ERROR, WriteError (out_file 1 "x"))])%list.
Proof.
  apply (write_unprintable_empties_file (with_file "./out1/x" "[0, 1]") 1 "x"
           [VInt int_str_limit] 0); vm_compute; reflexivity.
Defined.
